(** * Chebyshev series evaluator of ruby-ephem (ext/ephem/chebyshev/chebyshev.c)

    A shallow embedding of the two C functions of the extension,
    [chebyshev_evaluate] and [chebyshev_evaluate_derivative], together with
    the part of the Ruby C API they call ([Check_Type], [NUM2DBL],
    [rb_ary_entry], [RARRAY_LEN], [rb_ary_new_from_args], [DBL2NUM]).

    The C type [double] is kept abstract behind the class [DoubleOps]: the
    code is embedded once, and every statement about shapes, errors and
    which elements are read holds for any arithmetic.  The arithmetic of
    the code is [binary64] (IEEE 754 doubles, Rocq's primitive floats), on
    which the embedding runs.  Statements about the values returned are
    made on [binary64]; where they compare a result with a real number
    (a Chebyshev series, its derivative), they say under which condition
    on the run the double has that real value. *)

From Stdlib Require Import String.
From Stdlib Require Import ZArith List Bool Lia.
From Stdlib Require Import Reals Lra.
From Stdlib Require Import Floats.
Import ListNotations.

Set Implicit Arguments.

(** ** Arithmetic on [double] *)

(** The operations the C code performs on [double]: [+], [-], [*], [/] and
    the conversion of an integer, which also gives the literals
    ([0.0], [2.0], [86400.0]) and the cast [(double)k]. *)
Class DoubleOps (D : Type) : Type := {
  dadd : D -> D -> D;
  dsub : D -> D -> D;
  dmul : D -> D -> D;
  ddiv : D -> D -> D;
  of_long : Z -> D
}.

Declare Scope double_scope.
Delimit Scope double_scope with dbl.
Infix "+" := dadd : double_scope.
Infix "-" := dsub : double_scope.
Infix "*" := dmul : double_scope.
Infix "/" := ddiv : double_scope.

(** IEEE 754 binary64, round to nearest even. *)
#[export] Instance binary64 : DoubleOps float := {
  dadd := PrimFloat.add;
  dsub := PrimFloat.sub;
  dmul := PrimFloat.mul;
  ddiv := PrimFloat.div;
  of_long := fun z => SF2Prim (binary_normalize prec emax z 0 false)
}.

(** ** Ruby values and exceptions *)

(** The Ruby objects the extension can tell apart.  [Integer] stands for
    both Fixnum and Bignum. *)
#[warnings="-register-all"]
Inductive VALUE (D : Type) : Type :=
| Qnil
| Qtrue
| Qfalse
| Integer (z : Z)
| Float (d : D)
| String (s : string)
| Array (elts : list (VALUE D)).

Arguments Qnil {D}.
Arguments Qtrue {D}.
Arguments Qfalse {D}.
Arguments Integer {D} z.
Arguments String {D} s.

(** Both [Check_Type] and [NUM2DBL] raise [TypeError]. *)
Inductive exception : Type :=
| TypeError.

(** A C function of the extension either returns or raises. *)
Inductive result (A : Type) : Type :=
| Ok (a : A)
| Raise (e : exception).

Arguments Ok {A} a.
Arguments Raise {A} e.

Definition bind {A B : Type} (r : result A) (f : A -> result B) : result B :=
  match r with
  | Ok a => f a
  | Raise e => Raise e
  end.

Notation "x <- r ;; k" := (bind r (fun x => k))
  (at level 61, r at next level, right associativity).

Definition raises {A : Type} (r : result A) : bool :=
  match r with
  | Ok _ => false
  | Raise _ => true
  end.

(** ** The Ruby C API used by the extension *)

(** These macros and functions come from [ruby.h], which is not part of
    the extension.  They are modelled after their documented behaviour on
    the values of [VALUE]; it is the one the error conditions of the
    specification describe (a coefficient argument that is not a sequence
    of sequences, or an inner element that lacks one of the 3 numeric
    components, is refused). *)

Section RubyAPI.
Context {D : Type} `{DoubleOps D}.

(** [Check_Type(v, T_ARRAY)]: returns when [v] is an Array. *)
Definition Check_Type_T_ARRAY (v : VALUE D) : result (list (VALUE D)) :=
  match v with
  | Array elts => Ok elts
  | _ => Raise TypeError
  end.

(** [NUM2DBL(v)]: a Float gives its value, an Integer is converted;
    [nil], [true], [false], a String and an Array have no implicit
    conversion to Float.  (Objects on which [NUM2DBL] would call [to_f],
    such as a Rational, are not among the values of [VALUE].) *)
Definition NUM2DBL (v : VALUE D) : result D :=
  match v with
  | Float d => Ok d
  | Integer z => Ok (of_long z)
  | _ => Raise TypeError
  end.

Definition DBL2NUM (d : D) : VALUE D := Float d.

Definition RARRAY_LEN (ary : list (VALUE D)) : Z := Z.of_nat (length ary).

(** [rb_ary_entry(ary, offset)]: a negative offset counts from the end,
    an offset out of range gives [nil]. *)
Definition rb_ary_entry (ary : list (VALUE D)) (offset : Z) : VALUE D :=
  let len := RARRAY_LEN ary in
  let offset := if (offset <? 0)%Z then (offset + len)%Z else offset in
  if ((offset <? 0) || (len <=? offset))%Z then Qnil
  else nth (Z.to_nat offset) ary Qnil.

Definition rb_ary_new_from_args3 (x y z : VALUE D) : VALUE D :=
  Array [x; y; z].
End RubyAPI.

(** ** The extension *)

Section Chebyshev.
Context {D : Type} `{DoubleOps D}.
Local Open Scope double_scope.

Definition SECONDS_PER_DAY : D := of_long 86400.

(** The six accumulators of either loop: [b1x .. b2z] in
    [chebyshev_evaluate], [d1x .. d2z] in [chebyshev_evaluate_derivative]. *)
Record accumulators : Type := Acc {
  a1x : D; a1y : D; a1z : D;
  a2x : D; a2y : D; a2z : D
}.

(** [for (k = n - 1; k > 0; k--)] of [chebyshev_evaluate]; the argument
    [k] is the value of the loop variable on entry. *)
Fixpoint evaluate_loop (rb_coeffs : list (VALUE D)) (t2 : D)
         (k : nat) (b : accumulators) : result accumulators :=
  match k with
  | O => Ok b
  | S k' =>
      c_ary <- Check_Type_T_ARRAY (rb_ary_entry rb_coeffs (Z.of_nat k)) ;;
      c0 <- NUM2DBL (rb_ary_entry c_ary 0) ;;
      c1 <- NUM2DBL (rb_ary_entry c_ary 1) ;;
      c2 <- NUM2DBL (rb_ary_entry c_ary 2) ;;
      let tx := t2 * a1x b - a2x b + c0 in
      let ty := t2 * a1y b - a2y b + c1 in
      let tz := t2 * a1z b - a2z b + c2 in
      evaluate_loop rb_coeffs t2 k'
        {| a2x := a1x b; a2y := a1y b; a2z := a1z b;
           a1x := tx; a1y := ty; a1z := tz |}
  end.

Definition chebyshev_evaluate (rb_coeffs rb_t : VALUE D) : result (VALUE D) :=
  coeffs <- Check_Type_T_ARRAY rb_coeffs ;;
  t <- NUM2DBL rb_t ;;
  let n := RARRAY_LEN coeffs in
  let b0 := {| a1x := of_long 0; a1y := of_long 0; a1z := of_long 0;
               a2x := of_long 0; a2y := of_long 0; a2z := of_long 0 |} in
  let t2 := of_long 2 * t in
  b <- evaluate_loop coeffs t2 (Z.to_nat (n - 1)) b0 ;;
  c_ary <- Check_Type_T_ARRAY (rb_ary_entry coeffs 0) ;;
  c0 <- NUM2DBL (rb_ary_entry c_ary 0) ;;
  c1 <- NUM2DBL (rb_ary_entry c_ary 1) ;;
  c2 <- NUM2DBL (rb_ary_entry c_ary 2) ;;
  Ok (rb_ary_new_from_args3
        (DBL2NUM (t * a1x b - a2x b + c0))
        (DBL2NUM (t * a1y b - a2y b + c1))
        (DBL2NUM (t * a1z b - a2z b + c2))).

(** [for (k = n - 1; k > 0; k--)] of [chebyshev_evaluate_derivative]. *)
Fixpoint derivative_loop (rb_coeffs : list (VALUE D)) (t2 : D)
         (k : nat) (d : accumulators) : result accumulators :=
  match k with
  | O => Ok d
  | S k' =>
      c_ary <- Check_Type_T_ARRAY (rb_ary_entry rb_coeffs (Z.of_nat k)) ;;
      c0 <- NUM2DBL (rb_ary_entry c_ary 0) ;;
      c1 <- NUM2DBL (rb_ary_entry c_ary 1) ;;
      c2 <- NUM2DBL (rb_ary_entry c_ary 2) ;;
      let k2 := of_long 2 * of_long (Z.of_nat k) in
      let tx := t2 * a1x d - a2x d + k2 * c0 in
      let ty := t2 * a1y d - a2y d + k2 * c1 in
      let tz := t2 * a1z d - a2z d + k2 * c2 in
      derivative_loop rb_coeffs t2 k'
        {| a2x := a1x d; a2y := a1y d; a2z := a1z d;
           a1x := tx; a1y := ty; a1z := tz |}
  end.

Definition chebyshev_evaluate_derivative (rb_coeffs rb_t rb_radius : VALUE D)
  : result (VALUE D) :=
  coeffs <- Check_Type_T_ARRAY rb_coeffs ;;
  t <- NUM2DBL rb_t ;;
  radius <- NUM2DBL rb_radius ;;
  let n := RARRAY_LEN coeffs in
  if (n <? 2)%Z then
    Ok (rb_ary_new_from_args3
          (DBL2NUM (of_long 0)) (DBL2NUM (of_long 0)) (DBL2NUM (of_long 0)))
  else
    let d0 := {| a1x := of_long 0; a1y := of_long 0; a1z := of_long 0;
                 a2x := of_long 0; a2y := of_long 0; a2z := of_long 0 |} in
    let t2 := of_long 2 * t in
    d <- derivative_loop coeffs t2 (Z.to_nat (n - 1)) d0 ;;
    let scale := SECONDS_PER_DAY / (of_long 2 * radius) in
    Ok (rb_ary_new_from_args3
          (DBL2NUM (a1x d * scale))
          (DBL2NUM (a1y d * scale))
          (DBL2NUM (a1z d * scale))).
End Chebyshev.

(** ** Shapes of the arguments *)

Section Shapes.
Context {D : Type} `{DoubleOps D}.
Local Open Scope double_scope.

(** A value [NUM2DBL] converts. *)
Definition numeric (v : VALUE D) : bool :=
  match v with
  | Integer _ | Float _ => true
  | _ => false
  end.

(** A well-formed 3-vector: an Array whose components 0, 1 and 2 exist
    and are numbers (further components are allowed). *)
Definition well_formed_vec (v : VALUE D) : bool :=
  match v with
  | Array (c0 :: c1 :: c2 :: _) => numeric c0 && numeric c1 && numeric c2
  | _ => false
  end.

(** An inner Array with fewer than 3 components. *)
Definition short_vec (v : VALUE D) : bool :=
  match v with
  | Array c => (length c <? 3)%nat
  | _ => false
  end.

(** Two elements that differ at most in components at index 3 or beyond. *)
Definition same_upto3 (u v : VALUE D) : Prop :=
  u = v \/
  exists c c', u = Array c /\ v = Array c' /\ firstn 3 c = firstn 3 c'.

(** The four statements that read one coefficient vector, written three
    times in the source (lines 39-43, 53-57 and 106-110). *)
Definition components (v : VALUE D) : result (D * D * D) :=
  c_ary <- Check_Type_T_ARRAY v ;;
  c0 <- NUM2DBL (rb_ary_entry c_ary 0) ;;
  c1 <- NUM2DBL (rb_ary_entry c_ary 1) ;;
  c2 <- NUM2DBL (rb_ary_entry c_ary 2) ;;
  Ok (c0, c1, c2).

Definition axis_x (c : D * D * D) : D := fst (fst c).
Definition axis_y (c : D * D * D) : D := snd (fst c).
Definition axis_z (c : D * D * D) : D := snd c.

(** The body of the loop of [chebyshev_evaluate] once the vector is read. *)
Definition shift (t2 : D) (c : D * D * D) (b : accumulators) : accumulators :=
  {| a2x := a1x b; a2y := a1y b; a2z := a1z b;
     a1x := t2 * a1x b - a2x b + axis_x c;
     a1y := t2 * a1y b - a2y b + axis_y c;
     a1z := t2 * a1z b - a2z b + axis_z c |}.

(** The same for [chebyshev_evaluate_derivative], where the vector is
    multiplied by [k2]. *)
Definition shift_k2 (t2 : D) (k : nat) (c : D * D * D) (d : accumulators)
  : accumulators :=
  let k2 := of_long 2 * of_long (Z.of_nat k) in
  shift t2 (k2 * axis_x c, k2 * axis_y c, k2 * axis_z c) d.

(** One axis of either loop: the recurrence
    [b <- t2 * b1 - b2 + f k] for [k], [k-1], ..., [1]; the result is the
    pair [(b1, b2)] left by the loop. *)
Fixpoint clenshaw (f : nat -> D) (t2 : D) (k : nat) (b1 b2 : D) : D * D :=
  match k with
  | O => (b1, b2)
  | S k' => clenshaw f t2 k' (t2 * b1 - b2 + f k) b1
  end.

(** The accumulators on entry of either loop. *)
Definition zero_acc : accumulators :=
  {| a1x := of_long 0; a1y := of_long 0; a1z := of_long 0;
     a2x := of_long 0; a2y := of_long 0; a2z := of_long 0 |}.

(** The value [chebyshev_evaluate] returns from the accumulators [b] and
    the vector [c] at index 0. *)
Definition combine (t : D) (b : accumulators) (c : D * D * D) : VALUE D :=
  rb_ary_new_from_args3
    (DBL2NUM (t * a1x b - a2x b + axis_x c))
    (DBL2NUM (t * a1y b - a2y b + axis_y c))
    (DBL2NUM (t * a1z b - a2z b + axis_z c)).

(** The value [chebyshev_evaluate_derivative] returns from the
    accumulators [d]. *)
Definition scaled (radius : D) (d : accumulators) : VALUE D :=
  let scale := SECONDS_PER_DAY / (of_long 2 * radius) in
  rb_ary_new_from_args3
    (DBL2NUM (a1x d * scale))
    (DBL2NUM (a1y d * scale))
    (DBL2NUM (a1z d * scale)).

(** The value it returns when [n < 2]. *)
Definition zero_vector : VALUE D :=
  rb_ary_new_from_args3
    (DBL2NUM (of_long 0)) (DBL2NUM (of_long 0)) (DBL2NUM (of_long 0)).

(** The accumulators either loop leaves when every vector it reads is
    given by [c]: each axis runs [clenshaw] on its own. *)
Definition along_axes (fx fy fz : nat -> D) (t2 : D) (k : nat)
           (b : accumulators) : accumulators :=
  {| a1x := fst (clenshaw fx t2 k (a1x b) (a2x b));
     a1y := fst (clenshaw fy t2 k (a1y b) (a2y b));
     a1z := fst (clenshaw fz t2 k (a1z b) (a2z b));
     a2x := snd (clenshaw fx t2 k (a1x b) (a2x b));
     a2y := snd (clenshaw fy t2 k (a1y b) (a2y b));
     a2z := snd (clenshaw fz t2 k (a1z b) (a2z b)) |}.

(** Elements [k], [k-1], ..., [1] of the record are well-formed: what
    either loop, entered with [k], requires. *)
Fixpoint well_formed_down (rb_coeffs : list (VALUE D)) (k : nat) : bool :=
  match k with
  | O => true
  | S k' =>
      well_formed_vec (rb_ary_entry rb_coeffs (Z.of_nat k))
      && well_formed_down rb_coeffs k'
  end.

(** What a caller reads at index [i] of the returned Array ([0.0] when the
    call raised or the slot is no Float). *)
Definition returned_component (i : nat) (r : result (VALUE D)) : D :=
  match r with
  | Ok (Array elts) =>
      match nth i elts Qnil with
      | Float d => d
      | _ => of_long 0
      end
  | _ => of_long 0
  end.

(** An Integer component replaced by the Float [NUM2DBL] gives for it. *)
Definition as_float (v : VALUE D) : VALUE D :=
  match v with
  | Integer z => Float (of_long z)
  | _ => v
  end.

(** The same in every component of an inner Array. *)
Definition with_float_components (v : VALUE D) : VALUE D :=
  match v with
  | Array c => Array (map as_float c)
  | _ => v
  end.

(** The arguments on which [chebyshev_evaluate] is expected to return: a
    non-empty Array of well-formed vectors and a numeric [t]. *)
Definition evaluate_accepts (rb_coeffs rb_t : VALUE D) : bool :=
  match rb_coeffs with
  | Array (v0 :: rest) => numeric rb_t && forallb well_formed_vec (v0 :: rest)
  | _ => false
  end.

(** The arguments on which [chebyshev_evaluate_derivative] is expected to
    return: an Array whose elements after the first are well-formed
    vectors, and numeric [t] and [radius]. *)
Definition evaluate_derivative_accepts (rb_coeffs rb_t rb_radius : VALUE D)
  : bool :=
  match rb_coeffs with
  | Array l =>
      numeric rb_t && numeric rb_radius && forallb well_formed_vec (tl l)
  | _ => false
  end.

(** Component [i] of a coefficient vector ([i] = 0, 1, 2 for x, y, z). *)
Definition axis (i : nat) (c : D * D * D) : D :=
  match i with
  | O => axis_x c
  | S O => axis_y c
  | _ => axis_z c
  end.

(** Two well-formed vectors with the same component [i]. *)
Definition same_on_axis (i : nat) (u v : VALUE D) : Prop :=
  exists cu cv,
    components u = Ok cu /\ components v = Ok cv /\ axis i cu = axis i cv.

(** The vector [components] reads from [v] ([0.0]s when it raises). *)
Definition vector_of (v : VALUE D) : D * D * D :=
  match components v with
  | Ok c => c
  | Raise _ => (of_long 0, of_long 0, of_long 0)
  end.

End Shapes.

(** ** Chebyshev series over the reals *)

Section Series.
Local Open Scope R_scope.

(** Chebyshev polynomials of the first kind:
    [T_0 = 1], [T_1 = t], [T_(k+2) = 2 t T_(k+1) - T_k]. *)
Fixpoint chebyshev_T (k : nat) (t : R) : R :=
  match k with
  | O => 1
  | S k' =>
      match k' with
      | O => t
      | S k'' => 2 * t * chebyshev_T k' t - chebyshev_T k'' t
      end
  end.

(** Chebyshev polynomials of the second kind, shifted by one:
    [chebyshev_U1 k = U_(k-1)], with [U_(-1) = 0], [U_0 = 1] and the
    same recurrence. *)
Fixpoint chebyshev_U1 (k : nat) (t : R) : R :=
  match k with
  | O => 0
  | S k' =>
      match k' with
      | O => 1
      | S k'' => 2 * t * chebyshev_U1 k' t - chebyshev_U1 k'' t
      end
  end.

(** The recurrence of the specification, over the real numbers: for
    [k], [k-1], ..., [1], [new = t2 * b1 - b2 + g k], then [b2 <- b1],
    [b1 <- new]; the result is the pair [(b1, b2)].  It is what [clenshaw]
    computes when no operation rounds. *)
Fixpoint clenshaw_real (g : nat -> R) (t2 : R) (k : nat) (b1 b2 : R) : R * R :=
  match k with
  | O => (b1, b2)
  | S k' => clenshaw_real g t2 k' (t2 * b1 - b2 + g k) b1
  end.

(** [sum_below n f = f 0 + ... + f (n-1)]. *)
Fixpoint sum_below (n : nat) (f : nat -> R) : R :=
  match n with
  | O => 0
  | S m => sum_below m f + f m
  end.

(** The direct summation [sum_(k<n) c[k] * T_k(t)], [n] the length of [c]. *)
Definition chebyshev_series (c : list R) (t : R) : R :=
  sum_below (length c) (fun k => nth k c 0 * chebyshev_T k t).

(** The derivative of a Chebyshev series with respect to [t], term by
    term: [d/dt T_k = k U_(k-1)]. *)
Definition chebyshev_series_derivative (c : list R) (t : R) : R :=
  sum_below (length c)
    (fun k => nth k c 0 * (IZR (Z.of_nat k) * chebyshev_U1 k t)).

(** [c[0] + ... + c[n-1]]. *)
Definition plain_sum (c : list R) : R :=
  sum_below (length c) (fun k => nth k c 0).

End Series.

(** ** Doubles as real numbers *)

Section Binary64Values.
Local Open Scope R_scope.

(** A finite double [(-1)^s * m * 2^e] as a fraction of two integers
    ([0 / 1] for a zero, and by convention for an infinity and a NaN). *)
Definition to_frac (x : float) : Z * Z :=
  match Prim2SF x with
  | S754_finite s m e =>
      let n := if s then Z.neg m else Z.pos m in
      if (0 <=? e)%Z then ((n * 2 ^ e)%Z, 1%Z) else (n, (2 ^ (- e))%Z)
  | _ => (0%Z, 1%Z)
  end.

(** The real number a finite double stands for. *)
Definition to_R (x : float) : R :=
  IZR (fst (to_frac x)) / IZR (snd (to_frac x)).

(** The double [x] is finite and stands for the real number [r]: when [x]
    is the result of an operation and [r] the result of the same operation
    on the reals, the operation did not round, overflow or underflow. *)
Definition exactly (x : float) (r : R) : Prop :=
  is_finite x = true /\ to_R x = r.

(** Every accumulator update [t2 * b1 - b2 + f k] of a run of [clenshaw]
    on binary64 is exact. *)
Fixpoint clenshaw_is_exact (f : nat -> float) (t2 : float) (k : nat)
         (b1 b2 : float) : Prop :=
  match k with
  | O => True
  | S k' =>
      exactly (t2 * b1 - b2 + f k)%dbl
              (to_R t2 * to_R b1 - to_R b2 + to_R (f k))
      /\ clenshaw_is_exact f t2 k' (t2 * b1 - b2 + f k)%dbl b1
  end.

(** One axis of [chebyshev_evaluate], on [n] coefficients [f 0 .. f (n-1)],
    runs without rounding: [t2 = 2.0 * t], every update of the loop and
    the last statement [t * b1 - b2 + c] are exact. *)
Definition evaluate_axis_exact (f : nat -> float) (t : float) (n : nat) : Prop :=
  let t2 := (of_long 2 * t)%dbl in
  let b := clenshaw f t2 (n - 1) (of_long 0) (of_long 0) in
  exactly t2 (2 * to_R t)
  /\ clenshaw_is_exact f t2 (n - 1) (of_long 0) (of_long 0)
  /\ exactly (t * fst b - snd b + f O)%dbl
             (to_R t * to_R (fst b) - to_R (snd b) + to_R (f O)).

(** [chebyshev_evaluate] runs without rounding on the vectors [cs]. *)
Definition evaluate_is_exact (cs : list (float * float * float)) (t : float)
  : Prop :=
  let c := fun j => nth j cs (of_long 0, of_long 0, of_long 0) in
  evaluate_axis_exact (fun j => axis_x (c j)) t (length cs)
  /\ evaluate_axis_exact (fun j => axis_y (c j)) t (length cs)
  /\ evaluate_axis_exact (fun j => axis_z (c j)) t (length cs).

(** One axis of [chebyshev_evaluate_derivative] runs without rounding:
    [t2], every product [k2 * c] with [k2 = 2.0 * (double)k], every update
    of the loop, [scale] and the last product [d1 * scale] are exact. *)
Definition derivative_axis_exact (c : nat -> float) (t radius : float)
           (n : nat) : Prop :=
  let t2 := (of_long 2 * t)%dbl in
  let f := fun k => (of_long 2 * of_long (Z.of_nat k) * c k)%dbl in
  let d := clenshaw f t2 (n - 1) (of_long 0) (of_long 0) in
  let scale := (SECONDS_PER_DAY / (of_long 2 * radius))%dbl in
  exactly t2 (2 * to_R t)
  /\ (forall k, (1 <= k <= n - 1)%nat ->
        exactly (f k) (2 * IZR (Z.of_nat k) * to_R (c k)))
  /\ clenshaw_is_exact f t2 (n - 1) (of_long 0) (of_long 0)
  /\ exactly scale (86400 / (2 * to_R radius))
  /\ exactly (fst d * scale)%dbl (to_R (fst d) * to_R scale).

(** [chebyshev_evaluate_derivative] runs without rounding on the vectors
    [cs]. *)
Definition derivative_is_exact (cs : list (float * float * float))
           (t radius : float) : Prop :=
  let c := fun j => nth j cs (of_long 0, of_long 0, of_long 0) in
  derivative_axis_exact (fun j => axis_x (c j)) t radius (length cs)
  /\ derivative_axis_exact (fun j => axis_y (c j)) t radius (length cs)
  /\ derivative_axis_exact (fun j => axis_z (c j)) t radius (length cs).

(** The real values of one axis of a list of vectors. *)
Definition real_axis (p : float * float * float -> float)
           (cs : list (float * float * float)) : list R :=
  map (fun c => to_R (p c)) cs.

(** What [chebyshev_evaluate] gives back for a coefficient [c] it adds to
    accumulators that are still 0: [c] itself unless [c] is a zero, and a
    zero, of either sign, when [c] is a zero. *)
Definition read_back (x c : float) : Prop :=
  (is_zero c = false -> x = c) /\ (is_zero c = true -> is_zero x = true).
End Binary64Values.

(** ** The Ruby C API *)

Section RubyAPIFacts.
Context {D : Type} `{DoubleOps D}.

Lemma rb_ary_entry_nth (ary : list (VALUE D)) (j : nat) :
  rb_ary_entry ary (Z.of_nat j) = nth j ary Qnil.
Proof.
  assert (Hj : (Z.of_nat j <? 0)%Z = false) by (apply Z.ltb_ge; lia).
  unfold rb_ary_entry, RARRAY_LEN. cbv zeta.
  rewrite Hj. cbv iota. rewrite Hj. cbn [orb].
  destruct (Z.leb_spec (Z.of_nat (length ary)) (Z.of_nat j)) as [Hout | Hin].
  - symmetry. apply nth_overflow. lia.
  - now rewrite Nat2Z.id.
Qed.

Lemma rb_ary_entry_0 (ary : list (VALUE D)) :
  rb_ary_entry ary 0 = nth 0 ary Qnil.
Proof. exact (rb_ary_entry_nth ary 0). Qed.

Lemma rb_ary_entry_1 (ary : list (VALUE D)) :
  rb_ary_entry ary 1 = nth 1 ary Qnil.
Proof. exact (rb_ary_entry_nth ary 1). Qed.

Lemma rb_ary_entry_2 (ary : list (VALUE D)) :
  rb_ary_entry ary 2 = nth 2 ary Qnil.
Proof. exact (rb_ary_entry_nth ary 2). Qed.

Lemma NUM2DBL_raises (v : VALUE D) :
  raises (NUM2DBL v) = negb (numeric v).
Proof. now destruct v. Qed.

Lemma NUM2DBL_numeric (v : VALUE D) :
  numeric v = true -> exists d, NUM2DBL v = Ok d.
Proof. destruct v; try discriminate; intros _; eexists; reflexivity. Qed.

Lemma nth_firstn3 (c : list (VALUE D)) (j : nat) :
  (j < 3)%nat -> nth j (firstn 3 c) Qnil = nth j c Qnil.
Proof.
  intros Hj.
  destruct c as [| v0 [| v1 [| v2 rest]]]; try reflexivity.
  destruct j as [| [| [| j]]]; try reflexivity; lia.
Qed.

(** [components] only looks at the first three components. *)
Lemma components_Array (c : list (VALUE D)) :
  components (Array c) =
    (c0 <- NUM2DBL (nth 0 c Qnil) ;;
     c1 <- NUM2DBL (nth 1 c Qnil) ;;
     c2 <- NUM2DBL (nth 2 c Qnil) ;;
     Ok (c0, c1, c2)).
Proof.
  unfold components. cbn [Check_Type_T_ARRAY bind].
  now rewrite rb_ary_entry_0, rb_ary_entry_1, rb_ary_entry_2.
Qed.

Lemma components_firstn3 (c c' : list (VALUE D)) :
  firstn 3 c = firstn 3 c' -> components (Array c) = components (Array c').
Proof.
  intros Heq. rewrite !components_Array.
  rewrite <- (nth_firstn3 c (j := 0)), <- (nth_firstn3 c (j := 1)),
          <- (nth_firstn3 c (j := 2)) by lia.
  rewrite Heq.
  now rewrite !nth_firstn3 by lia.
Qed.

Lemma components_same_upto3 (u v : VALUE D) :
  same_upto3 u v -> components u = components v.
Proof.
  intros [-> | (c & c' & -> & -> & Heq)]; [reflexivity |].
  now apply components_firstn3.
Qed.

(** [components] raises exactly on the vectors that are not well-formed. *)
Lemma components_raises (v : VALUE D) :
  raises (components v) = negb (well_formed_vec v).
Proof.
  destruct v as [| | | z | d | s | c]; try reflexivity.
  rewrite components_Array.
  destruct c as [| v0 [| v1 [| v2 rest]]]; cbn [nth well_formed_vec].
  - reflexivity.
  - now destruct (NUM2DBL v0).
  - destruct (NUM2DBL v0); [| reflexivity]. now destruct (NUM2DBL v1).
  - destruct v0, v1, v2; reflexivity.
Qed.

Lemma short_vec_not_well_formed (v : VALUE D) :
  short_vec v = true -> well_formed_vec v = false.
Proof.
  destruct v as [| | | z | d | s | c]; try discriminate.
  destruct c as [| v0 [| v1 [| v2 rest]]]; try reflexivity.
  discriminate.
Qed.
End RubyAPIFacts.

(** ** The two loops *)

Section LoopFacts.
Context {D : Type} `{DoubleOps D}.
Local Open Scope double_scope.

Lemma evaluate_loop_S (l : list (VALUE D)) (t2 : D) (k : nat) (b : accumulators) :
  evaluate_loop l t2 (S k) b =
    (c <- components (rb_ary_entry l (Z.of_nat (S k))) ;;
     evaluate_loop l t2 k (shift t2 c b)).
Proof.
  cbn [evaluate_loop]. unfold components.
  destruct (Check_Type_T_ARRAY _) as [c_ary | e]; cbn [bind]; [| reflexivity].
  destruct (NUM2DBL (rb_ary_entry c_ary 0)); cbn [bind]; [| reflexivity].
  destruct (NUM2DBL (rb_ary_entry c_ary 1)); cbn [bind]; [| reflexivity].
  destruct (NUM2DBL (rb_ary_entry c_ary 2)); cbn [bind]; reflexivity.
Qed.

Lemma derivative_loop_S (l : list (VALUE D)) (t2 : D) (k : nat) (d : accumulators) :
  derivative_loop l t2 (S k) d =
    (c <- components (rb_ary_entry l (Z.of_nat (S k))) ;;
     derivative_loop l t2 k (shift_k2 t2 (S k) c d)).
Proof.
  cbn [derivative_loop]. unfold components.
  destruct (Check_Type_T_ARRAY _) as [c_ary | e]; cbn [bind]; [| reflexivity].
  destruct (NUM2DBL (rb_ary_entry c_ary 0)); cbn [bind]; [| reflexivity].
  destruct (NUM2DBL (rb_ary_entry c_ary 1)); cbn [bind]; [| reflexivity].
  destruct (NUM2DBL (rb_ary_entry c_ary 2)); cbn [bind]; reflexivity.
Qed.

Lemma loop_bound (l : list (VALUE D)) :
  Z.to_nat (RARRAY_LEN l - 1) = (length l - 1)%nat.
Proof. unfold RARRAY_LEN. lia. Qed.

Lemma chebyshev_evaluate_Array (l : list (VALUE D)) (rb_t : VALUE D) :
  chebyshev_evaluate (Array l) rb_t =
    (t <- NUM2DBL rb_t ;;
     b <- evaluate_loop l (of_long 2 * t) (length l - 1) zero_acc ;;
     c <- components (rb_ary_entry l 0) ;;
     Ok (combine t b c)).
Proof.
  unfold chebyshev_evaluate. cbn [Check_Type_T_ARRAY bind].
  destruct (NUM2DBL rb_t) as [t | e]; cbn [bind]; [| reflexivity].
  rewrite loop_bound. fold zero_acc.
  destruct (evaluate_loop _ _ _ _) as [b | e]; cbn [bind]; [| reflexivity].
  unfold components.
  destruct (Check_Type_T_ARRAY _) as [c_ary | e]; cbn [bind]; [| reflexivity].
  destruct (NUM2DBL (rb_ary_entry c_ary 0)); cbn [bind]; [| reflexivity].
  destruct (NUM2DBL (rb_ary_entry c_ary 1)); cbn [bind]; [| reflexivity].
  destruct (NUM2DBL (rb_ary_entry c_ary 2)); cbn [bind]; reflexivity.
Qed.

Lemma chebyshev_evaluate_derivative_Array
      (l : list (VALUE D)) (rb_t rb_radius : VALUE D) :
  chebyshev_evaluate_derivative (Array l) rb_t rb_radius =
    (t <- NUM2DBL rb_t ;;
     radius <- NUM2DBL rb_radius ;;
     if (length l <? 2)%nat then Ok zero_vector
     else d <- derivative_loop l (of_long 2 * t) (length l - 1) zero_acc ;;
          Ok (scaled radius d)).
Proof.
  unfold chebyshev_evaluate_derivative. cbn [Check_Type_T_ARRAY bind].
  destruct (NUM2DBL rb_t) as [t | e]; cbn [bind]; [| reflexivity].
  destruct (NUM2DBL rb_radius) as [radius | e]; cbn [bind]; [| reflexivity].
  rewrite loop_bound. fold zero_acc. fold zero_vector.
  replace (RARRAY_LEN l <? 2)%Z with (length l <? 2)%nat; [reflexivity |].
  unfold RARRAY_LEN.
  destruct (Nat.ltb_spec (length l) 2), (Z.ltb_spec (Z.of_nat (length l)) 2);
    try reflexivity; lia.
Qed.

(** Either loop depends on the record only through the vectors at the
    indices [k], ..., [1]. *)
Lemma evaluate_loop_ext (l l' : list (VALUE D)) (t2 : D) (k : nat) :
  (forall j, (1 <= j <= k)%nat ->
     components (rb_ary_entry l (Z.of_nat j))
     = components (rb_ary_entry l' (Z.of_nat j))) ->
  forall b, evaluate_loop l t2 k b = evaluate_loop l' t2 k b.
Proof.
  induction k as [| k IH]; intros Hsame b; [reflexivity |].
  rewrite !evaluate_loop_S, Hsame by lia.
  destruct (components _) as [c | e]; cbn [bind]; [| reflexivity].
  apply IH. intros j Hj. apply Hsame. lia.
Qed.

Lemma derivative_loop_ext (l l' : list (VALUE D)) (t2 : D) (k : nat) :
  (forall j, (1 <= j <= k)%nat ->
     components (rb_ary_entry l (Z.of_nat j))
     = components (rb_ary_entry l' (Z.of_nat j))) ->
  forall d, derivative_loop l t2 k d = derivative_loop l' t2 k d.
Proof.
  induction k as [| k IH]; intros Hsame d; [reflexivity |].
  rewrite !derivative_loop_S, Hsame by lia.
  destruct (components _) as [c | e]; cbn [bind]; [| reflexivity].
  apply IH. intros j Hj. apply Hsame. lia.
Qed.

(** Either loop raises exactly when one of the elements [k], ..., [1] is
    not a well-formed vector. *)
Lemma evaluate_loop_raises (l : list (VALUE D)) (t2 : D) (k : nat) :
  forall b, raises (evaluate_loop l t2 k b) = negb (well_formed_down l k).
Proof.
  induction k as [| k IH]; intros b; [reflexivity |].
  rewrite evaluate_loop_S. cbn [well_formed_down].
  pose proof (components_raises (rb_ary_entry l (Z.of_nat (S k)))) as Hc.
  destruct (components _) as [c | e]; cbn [bind raises] in *.
  - rewrite IH. now destruct (well_formed_vec _).
  - now destruct (well_formed_vec _).
Qed.

Lemma derivative_loop_raises (l : list (VALUE D)) (t2 : D) (k : nat) :
  forall d, raises (derivative_loop l t2 k d) = negb (well_formed_down l k).
Proof.
  induction k as [| k IH]; intros d; [reflexivity |].
  rewrite derivative_loop_S. cbn [well_formed_down].
  pose proof (components_raises (rb_ary_entry l (Z.of_nat (S k)))) as Hc.
  destruct (components _) as [c | e]; cbn [bind raises] in *.
  - rewrite IH. now destruct (well_formed_vec _).
  - now destruct (well_formed_vec _).
Qed.

Lemma well_formed_down_spec (l : list (VALUE D)) (k : nat) :
  well_formed_down l k = true <->
  forall j, (1 <= j <= k)%nat -> well_formed_vec (nth j l Qnil) = true.
Proof.
  induction k as [| k IH]; cbn [well_formed_down].
  - split; [intros _ j Hj; lia | reflexivity].
  - rewrite andb_true_iff, IH, rb_ary_entry_nth. split.
    + intros [Hk Hlow] j Hj.
      destruct (Nat.eq_dec j (S k)) as [-> | Hne]; [assumption |].
      apply Hlow. lia.
    + intros Hall. split; [apply Hall; lia |].
      intros j Hj. apply Hall. lia.
Qed.

(** When the vectors at [k], ..., [1] are given by [c], the loop of
    [chebyshev_evaluate] runs [clenshaw] on each axis. *)
Lemma evaluate_loop_clenshaw (l : list (VALUE D)) (c : nat -> D * D * D)
      (t2 : D) (k : nat) :
  (forall j, (1 <= j <= k)%nat ->
     components (rb_ary_entry l (Z.of_nat j)) = Ok (c j)) ->
  forall b,
    evaluate_loop l t2 k b =
      Ok (along_axes (fun j => axis_x (c j)) (fun j => axis_y (c j))
                     (fun j => axis_z (c j)) t2 k b).
Proof.
  induction k as [| k IH]; intros Hc b.
  - now destruct b.
  - rewrite evaluate_loop_S, Hc by lia. cbn [bind].
    rewrite IH by (intros j Hj; apply Hc; lia).
    reflexivity.
Qed.

(** The loop of [chebyshev_evaluate_derivative] runs it on the vectors
    multiplied by [k2 = 2 * k]. *)
Lemma derivative_loop_clenshaw (l : list (VALUE D)) (c : nat -> D * D * D)
      (t2 : D) (k : nat) :
  (forall j, (1 <= j <= k)%nat ->
     components (rb_ary_entry l (Z.of_nat j)) = Ok (c j)) ->
  forall d,
    derivative_loop l t2 k d =
      Ok (along_axes
            (fun j => of_long 2 * of_long (Z.of_nat j) * axis_x (c j))
            (fun j => of_long 2 * of_long (Z.of_nat j) * axis_y (c j))
            (fun j => of_long 2 * of_long (Z.of_nat j) * axis_z (c j)) t2 k d).
Proof.
  induction k as [| k IH]; intros Hc d.
  - now destruct d.
  - rewrite derivative_loop_S, Hc by lia. cbn [bind].
    rewrite IH by (intros j Hj; apply Hc; lia).
    reflexivity.
Qed.
(** [chebyshev_evaluate] on a record of n >= 1 vectors given by [c]. *)
Lemma chebyshev_evaluate_clenshaw (l : list (VALUE D)) (c : nat -> D * D * D)
      (rb_t : VALUE D) (t : D) :
  (1 <= length l)%nat ->
  (forall j, (j < length l)%nat ->
     components (rb_ary_entry l (Z.of_nat j)) = Ok (c j)) ->
  NUM2DBL rb_t = Ok t ->
  chebyshev_evaluate (Array l) rb_t =
    Ok (combine t
          (along_axes (fun j => axis_x (c j)) (fun j => axis_y (c j))
                      (fun j => axis_z (c j)) (of_long 2 * t)
                      (length l - 1) zero_acc)
          (c O)).
Proof.
  intros Hn Hread Ht.
  rewrite chebyshev_evaluate_Array, Ht. cbn [bind].
  rewrite (evaluate_loop_clenshaw l c) by (intros j Hj; apply Hread; lia).
  cbn [bind]. pose proof (Hread O Hn) as Hread0. cbn [Z.of_nat] in Hread0.
  now rewrite Hread0.
Qed.
End LoopFacts.

(** ** Which calls raise *)

Section Raising.
Context {D : Type} `{DoubleOps D}.

Lemma not_Array_raises (rb_coeffs rb_t rb_radius : VALUE D) :
  (forall l, rb_coeffs <> Array l) ->
  chebyshev_evaluate rb_coeffs rb_t = Raise TypeError /\
  chebyshev_evaluate_derivative rb_coeffs rb_t rb_radius = Raise TypeError.
Proof.
  intros Hna. destruct rb_coeffs; try (split; reflexivity).
  now destruct (Hna elts).
Qed.

Lemma chebyshev_evaluate_raises (l : list (VALUE D)) (rb_t : VALUE D) :
  raises (chebyshev_evaluate (Array l) rb_t) =
    negb (numeric rb_t
          && well_formed_down l (length l - 1)
          && well_formed_vec (nth 0 l Qnil)).
Proof.
  rewrite chebyshev_evaluate_Array, rb_ary_entry_0.
  pose proof (NUM2DBL_raises rb_t) as Ht.
  destruct (NUM2DBL rb_t) as [t | e]; cbn [bind raises] in *;
    [| now destruct (numeric rb_t)].
  pose proof (evaluate_loop_raises l (dmul (of_long 2) t) (length l - 1) zero_acc)
    as Hl.
  destruct (evaluate_loop _ _ _ _) as [b | e]; cbn [bind raises] in *;
    [| destruct (numeric rb_t), (well_formed_down _ _); try discriminate;
       reflexivity].
  pose proof (components_raises (nth 0 l Qnil)) as Hc.
  destruct (components _) as [c | e]; cbn [bind raises] in *;
    destruct (numeric rb_t), (well_formed_down _ _), (well_formed_vec _);
    try discriminate; reflexivity.
Qed.

Lemma chebyshev_evaluate_derivative_raises
      (l : list (VALUE D)) (rb_t rb_radius : VALUE D) :
  raises (chebyshev_evaluate_derivative (Array l) rb_t rb_radius) =
    negb (numeric rb_t && numeric rb_radius
          && ((length l <? 2)%nat || well_formed_down l (length l - 1))).
Proof.
  rewrite chebyshev_evaluate_derivative_Array.
  pose proof (NUM2DBL_raises rb_t) as Ht.
  destruct (NUM2DBL rb_t) as [t | e]; cbn [bind raises] in *;
    [| now destruct (numeric rb_t)].
  pose proof (NUM2DBL_raises rb_radius) as Hr.
  destruct (NUM2DBL rb_radius) as [radius | e]; cbn [bind raises] in *;
    [| destruct (numeric rb_t), (numeric rb_radius); try discriminate;
       reflexivity].
  destruct (numeric rb_t); [| discriminate].
  destruct (numeric rb_radius); [| discriminate].
  destruct (length l <? 2)%nat; [reflexivity |]. cbn [andb orb].
  pose proof (derivative_loop_raises l (dmul (of_long 2) t) (length l - 1)
                zero_acc) as Hl.
  now destruct (derivative_loop _ _ _ _).
Qed.

(** A malformed element at an index from 1 to [k] stops the loops. *)
Lemma well_formed_down_false (l : list (VALUE D)) (k i : nat) :
  (1 <= i <= k)%nat -> well_formed_vec (nth i l Qnil) = false ->
  well_formed_down l k = false.
Proof.
  intros Hi Hbad.
  destruct (well_formed_down l k) eqn:Hwf; [| reflexivity].
  rewrite well_formed_down_spec in Hwf. rewrite (Hwf i Hi) in Hbad.
  discriminate.
Qed.

(** The elements after the first are all the loops look at. *)
Lemma well_formed_down_tail (v0 : VALUE D) (rest : list (VALUE D)) :
  forallb well_formed_vec rest = true ->
  well_formed_down (v0 :: rest) (length rest) = true.
Proof.
  intros Hall. apply well_formed_down_spec. intros j Hj.
  destruct j as [| j]; [lia |]. cbn [nth].
  rewrite forallb_forall in Hall. apply Hall, nth_In. lia.
Qed.

Lemma Forall2_same_upto3_components (l l' : list (VALUE D)) :
  Forall2 same_upto3 l l' ->
  forall j : nat,
    components (rb_ary_entry l (Z.of_nat j))
    = components (rb_ary_entry l' (Z.of_nat j)).
Proof.
  intros Hsame j. rewrite !rb_ary_entry_nth.
  apply components_same_upto3.
  revert j. induction Hsame as [| u v l l' Huv _ IH]; intros [| j]; cbn [nth];
    try (now left); auto.
Qed.
End Raising.

(** ** Chebyshev polynomials and the recurrence over the reals *)

Section SeriesFacts.
Local Open Scope R_scope.

Lemma chebyshev_T_SS (k : nat) (t : R) :
  chebyshev_T (S (S k)) t = 2 * t * chebyshev_T (S k) t - chebyshev_T k t.
Proof. reflexivity. Qed.

Lemma chebyshev_U1_SS (k : nat) (t : R) :
  chebyshev_U1 (S (S k)) t = 2 * t * chebyshev_U1 (S k) t - chebyshev_U1 k t.
Proof. reflexivity. Qed.

Lemma sum_below_ext (n : nat) (f g : nat -> R) :
  (forall k, (k < n)%nat -> f k = g k) -> sum_below n f = sum_below n g.
Proof.
  induction n as [| n IH]; intros Hfg; [reflexivity |].
  cbn [sum_below]. rewrite IH, Hfg by (intros; try apply Hfg; lia).
  reflexivity.
Qed.

Lemma sum_below_scal (a : R) (n : nat) (f : nat -> R) :
  sum_below n (fun k => a * f k) = a * sum_below n f.
Proof.
  induction n as [| n IH]; cbn [sum_below]; [ring |]. rewrite IH. ring.
Qed.

Lemma clenshaw_real_S (f : nat -> R) (t2 : R) (k : nat) (b1 b2 : R) :
  clenshaw_real f t2 (S k) b1 b2 = clenshaw_real f t2 k (t2 * b1 - b2 + f (S k)) b1.
Proof. reflexivity. Qed.

(** Clenshaw's identity for the first kind: the half step with the
    non-doubled [t] turns the accumulators into the partial sum. *)
Lemma clenshaw_T (f : nat -> R) (t : R) (k : nat) :
  forall b1 b2,
    t * fst (clenshaw_real f (2 * t) k b1 b2) - snd (clenshaw_real f (2 * t) k b1 b2)
    + f O
    = sum_below (S k) (fun j => f j * chebyshev_T j t)
      + b1 * chebyshev_T (S k) t - b2 * chebyshev_T k t.
Proof.
  induction k as [| k IH]; intros b1 b2.
  - cbn. ring.
  - rewrite clenshaw_real_S, IH, chebyshev_T_SS.
    cbn [sum_below]. ring.
Qed.

(** Clenshaw's identity for the second kind: no half step, the first
    accumulator is the sum. *)
Lemma clenshaw_U1 (f : nat -> R) (t : R) (k : nat) :
  forall b1 b2,
    fst (clenshaw_real f (2 * t) k b1 b2)
    = sum_below (S k) (fun j => f j * chebyshev_U1 j t)
      + b1 * chebyshev_U1 (S k) t - b2 * chebyshev_U1 k t.
Proof.
  induction k as [| k IH]; intros b1 b2.
  - cbn. ring.
  - rewrite clenshaw_real_S, IH, chebyshev_U1_SS.
    cbn [sum_below]. ring.
Qed.

(** [T_(k+1) = t U_k - U_(k-1)]. *)
Lemma chebyshev_T_U1 (k : nat) (t : R) :
  chebyshev_T (S k) t = t * chebyshev_U1 (S k) t - chebyshev_U1 k t.
Proof.
  enough (Hboth : chebyshev_T (S k) t
                  = t * chebyshev_U1 (S k) t - chebyshev_U1 k t
                  /\ chebyshev_T (S (S k)) t
                     = t * chebyshev_U1 (S (S k)) t - chebyshev_U1 (S k) t)
    by apply Hboth.
  induction k as [| k [IH1 IH2]].
  - split; cbn; ring.
  - split; [exact IH2 |].
    rewrite chebyshev_T_SS, IH1, IH2, !chebyshev_U1_SS. ring.
Qed.

Lemma IZR_of_nat_S (k : nat) : IZR (Z.of_nat (S k)) = IZR (Z.of_nat k) + 1.
Proof. now rewrite Nat2Z.inj_succ, succ_IZR. Qed.

Lemma derivable_pt_lim_ext (f g : R -> R) (x l : R) :
  (forall y, f y = g y) -> derivable_pt_lim f x l -> derivable_pt_lim g x l.
Proof.
  intros Hfg Hf eps Heps. destruct (Hf eps Heps) as [delta Hdelta].
  exists delta. intros h Hh Hlt. rewrite <- !Hfg. now apply Hdelta.
Qed.

(** [d/dt T_k = k U_(k-1)]. *)
Lemma chebyshev_T_derivative (k : nat) (t : R) :
  derivable_pt_lim (chebyshev_T k) t (IZR (Z.of_nat k) * chebyshev_U1 k t).
Proof.
  enough (Hboth :
            derivable_pt_lim (chebyshev_T k) t
              (IZR (Z.of_nat k) * chebyshev_U1 k t)
            /\ derivable_pt_lim (chebyshev_T (S k)) t
                 (IZR (Z.of_nat (S k)) * chebyshev_U1 (S k) t))
    by apply Hboth.
  induction k as [| k [IH1 IH2]].
  - split.
    + replace (IZR (Z.of_nat 0) * chebyshev_U1 0 t) with 0 by (cbn; ring).
      apply (derivable_pt_lim_const 1).
    + replace (IZR (Z.of_nat 1) * chebyshev_U1 1 t) with 1 by (cbn; ring).
      apply derivable_pt_lim_id.
  - split; [exact IH2 |].
    apply derivable_pt_lim_ext
      with (f := ((mult_real_fct 2 id * chebyshev_T (S k))
                  - chebyshev_T k)%F).
    + intros y. unfold minus_fct, mult_fct, mult_real_fct, id.
      now rewrite chebyshev_T_SS.
    + replace (IZR (Z.of_nat (S (S k))) * chebyshev_U1 (S (S k)) t)
        with ((2 * 1) * chebyshev_T (S k) t
              + mult_real_fct 2 id t
                * (IZR (Z.of_nat (S k)) * chebyshev_U1 (S k) t)
              - IZR (Z.of_nat k) * chebyshev_U1 k t).
      * apply derivable_pt_lim_minus; [| exact IH1].
        apply derivable_pt_lim_mult; [| exact IH2].
        apply derivable_pt_lim_scal, derivable_pt_lim_id.
      * unfold mult_real_fct, id.
        rewrite chebyshev_T_U1, chebyshev_U1_SS, !IZR_of_nat_S. ring.
Qed.

(** The derivative of the direct summation, term by term. *)
Lemma sum_below_derivative (c : nat -> R) (n : nat) (t : R) :
  derivable_pt_lim
    (fun u => sum_below n (fun k => c k * chebyshev_T k u)) t
    (sum_below n (fun k => c k * (IZR (Z.of_nat k) * chebyshev_U1 k t))).
Proof.
  induction n as [| n IH]; cbn [sum_below].
  - apply (derivable_pt_lim_const 0).
  - apply (derivable_pt_lim_plus _ _ _ _ _ IH).
    apply (derivable_pt_lim_scal (chebyshev_T n) (c n)).
    apply chebyshev_T_derivative.
Qed.

Lemma chebyshev_series_derivable (c : list R) (t : R) :
  derivable_pt_lim (chebyshev_series c) t (chebyshev_series_derivative c t).
Proof. apply sum_below_derivative. Qed.

Lemma chebyshev_series_scal (a : R) (c : list R) (t : R) :
  chebyshev_series (map (Rmult a) c) t = a * chebyshev_series c t.
Proof.
  unfold chebyshev_series. rewrite length_map, <- sum_below_scal.
  apply sum_below_ext. intros k Hk.
  rewrite (nth_indep _ 0 (a * 0)) by (rewrite length_map; lia).
  rewrite (map_nth (Rmult a)). ring.
Qed.
End SeriesFacts.

(** ** Properties of [chebyshev_evaluate_derivative] for short records *)

Section ShortRecords.
Context {D : Type} `{DoubleOps D}.

(** C3: for a record of fewer than 2 elements, whatever they are, and
    numeric [t] and [radius] (a zero radius included),
    [evaluate_derivative] returns the zero vector [[0.0, 0.0, 0.0]]
    itself: the loop is not entered (the record is not read, so a
    malformed element does not raise) and no arithmetic is performed on
    the result, in whatever arithmetic [double] has. *)
Theorem evaluate_derivative_short_record
        (l : list (VALUE D)) (rb_t rb_radius : VALUE D) :
  (length l < 2)%nat ->
  numeric rb_t = true ->
  numeric rb_radius = true ->
  chebyshev_evaluate_derivative (Array l) rb_t rb_radius
  = Ok (Array [Float (of_long 0); Float (of_long 0); Float (of_long 0)]).
Proof.
  intros Hn Ht Hr.
  destruct (NUM2DBL_numeric _ Ht) as [t Ht'].
  destruct (NUM2DBL_numeric _ Hr) as [radius Hr'].
  rewrite chebyshev_evaluate_derivative_Array, Ht', Hr'. cbn [bind].
  destruct (Nat.ltb_spec (length l) 2) as [_ | Hge]; [reflexivity | lia].
Qed.

(** C6, as the code has it: [evaluate] rejects the empty record.  Element
    0 of an empty Array is [nil], which [Check_Type] refuses: the call
    raises [TypeError] for every [t]. *)
Theorem evaluate_empty_record_raises (rb_t : VALUE D) :
  chebyshev_evaluate (Array []) rb_t = Raise TypeError.
Proof.
  rewrite chebyshev_evaluate_Array.
  destruct (NUM2DBL rb_t) as [t | []]; reflexivity.
Qed.
End ShortRecords.

(** A record of one malformed element, a zero radius, on binary64. *)
Lemma evaluate_derivative_short_record_witness :
  chebyshev_evaluate_derivative
    (Array [String "x"%string]) (Float 0.5%float) (Integer 0)
  = Ok (Array [Float 0%float; Float 0%float; Float 0%float]).
Proof.
  change 0%float with (of_long (D := float) 0).
  apply evaluate_derivative_short_record; [cbn; lia | reflexivity | reflexivity].
Defined.

(** C6 fails as stated: the empty record is not accepted. *)
Lemma evaluate_empty_record_not_accepted :
  chebyshev_evaluate (Array []) (Float 0%float) = Raise TypeError
  /\ ~ (exists v, chebyshev_evaluate (Array []) (Float 0%float) = Ok v).
Proof.
  split; [reflexivity |]. intros [v Hv]. discriminate Hv.
Qed.

(** ** Validation of the coefficient record *)

Section Validation.
Context {D : Type} `{DoubleOps D}.

(** C4, as the code has it: for numeric [t] and [radius], whenever
    [evaluate_derivative] raises, [evaluate] raises as well; the two
    raise on exactly the same records once the record has at least 2
    elements and its element 0 is a well-formed vector.
    ([evaluate_derivative] never inspects element 0 and returns before
    reading anything when n < 2.) *)
Theorem evaluate_derivative_raises_only_if_evaluate
        (rb_coeffs rb_t rb_radius : VALUE D) :
  numeric rb_t = true ->
  numeric rb_radius = true ->
  (raises (chebyshev_evaluate_derivative rb_coeffs rb_t rb_radius) = true ->
   raises (chebyshev_evaluate rb_coeffs rb_t) = true)
  /\ (forall l,
        rb_coeffs = Array l ->
        (2 <= length l)%nat ->
        well_formed_vec (nth 0 l Qnil) = true ->
        raises (chebyshev_evaluate_derivative rb_coeffs rb_t rb_radius)
        = raises (chebyshev_evaluate rb_coeffs rb_t)).
Proof.
  intros Ht Hr. split.
  - destruct rb_coeffs as [| | | z | d | s | l]; try reflexivity.
    rewrite chebyshev_evaluate_derivative_raises, chebyshev_evaluate_raises.
    rewrite Ht, Hr. cbn [andb].
    destruct (length l <? 2)%nat; [discriminate |]. cbn [orb].
    now destruct (well_formed_down l (length l - 1)).
  - intros l -> Hn Hv0.
    rewrite chebyshev_evaluate_derivative_raises, chebyshev_evaluate_raises.
    rewrite Ht, Hr, Hv0. cbn [andb].
    destruct (Nat.ltb_spec (length l) 2) as [Hlt | _]; [lia |].
    cbn [orb]. now rewrite andb_true_r.
Qed.

(** C5, as the code has it: a record with an inner element that lacks one
    of its 3 numeric components (an Array of fewer than 3 components, see
    [short_vec_not_well_formed], or any other element that is not a
    well-formed vector) is rejected by [evaluate], wherever the element is,
    and by [evaluate_derivative] when the element is at an index from 1 on
    (element 0 is not read by [evaluate_derivative]).  A rejected call
    raises: it returns no value. *)
Theorem malformed_vector_rejected
        (l : list (VALUE D)) (i : nat) (v rb_t rb_radius : VALUE D) :
  nth_error l i = Some v ->
  well_formed_vec v = false ->
  raises (chebyshev_evaluate (Array l) rb_t) = true
  /\ ((1 <= i)%nat ->
      raises (chebyshev_evaluate_derivative (Array l) rb_t rb_radius) = true).
Proof.
  intros Hi Hmalformed.
  assert (Hlt : (i < length l)%nat) by (apply nth_error_Some; congruence).
  assert (Hbad : well_formed_vec (nth i l Qnil) = false).
  { now rewrite (nth_error_nth _ _ _ Hi). }
  split.
  - rewrite chebyshev_evaluate_raises.
    destruct i as [| i].
    + rewrite Hbad. now rewrite !andb_false_r.
    + rewrite (well_formed_down_false l (k := length l - 1) (i := S i))
        by (assumption || lia).
      now rewrite andb_false_r.
  - intros Hpos. rewrite chebyshev_evaluate_derivative_raises.
    rewrite (well_formed_down_false l (k := length l - 1) (i := i))
      by (assumption || lia).
    destruct (Nat.ltb_spec (length l) 2) as [Hn | _]; [lia |].
    now rewrite andb_false_r.
Qed.

(** C9: [evaluate_derivative] does not read element 0 of a record of
    n >= 2 elements.  Two records that agree from index 1 on give the same
    outcome, whatever their elements 0 are (a non-Array included); and
    when the elements from index 1 on are well-formed and [t], [radius]
    numeric, the call returns, whatever element 0 is. *)
Theorem evaluate_derivative_ignores_element_0
        (v0 v0' : VALUE D) (rest : list (VALUE D)) (rb_t rb_radius : VALUE D) :
  (2 <= length (v0 :: rest))%nat ->
  chebyshev_evaluate_derivative (Array (v0 :: rest)) rb_t rb_radius
  = chebyshev_evaluate_derivative (Array (v0' :: rest)) rb_t rb_radius
  /\ (forallb well_formed_vec rest = true ->
      numeric rb_t = true ->
      numeric rb_radius = true ->
      raises (chebyshev_evaluate_derivative (Array (v0 :: rest)) rb_t rb_radius)
      = false).
Proof.
  intros Hn. split.
  - rewrite !chebyshev_evaluate_derivative_Array. cbn [length].
    destruct (NUM2DBL rb_t) as [t | e]; cbn [bind]; [| reflexivity].
    destruct (NUM2DBL rb_radius) as [radius | e]; cbn [bind]; [| reflexivity].
    destruct (S (length rest) <? 2)%nat; [reflexivity |].
    rewrite (derivative_loop_ext (v0 :: rest) (v0' :: rest)); [reflexivity |].
    intros j Hj. rewrite !rb_ary_entry_nth.
    destruct j as [| j]; [lia | reflexivity].
  - intros Hrest Ht Hr.
    rewrite chebyshev_evaluate_derivative_raises, Ht, Hr. cbn [length andb].
    replace (S (length rest) - 1)%nat with (length rest) by lia.
    rewrite well_formed_down_tail by assumption.
    now rewrite orb_true_r.
Qed.

(** C10: both functions read components 0, 1 and 2 of an inner vector
    only.  Two records whose elements differ at most in components at
    index 3 or beyond give the same outcome in [evaluate] and in
    [evaluate_derivative]; and a record of well-formed vectors, of
    whatever lengths from 3 on, is accepted by both (for numeric [t] and
    [radius], and n >= 1). *)
Theorem components_beyond_2_ignored
        (l l' : list (VALUE D)) (rb_t rb_radius : VALUE D) :
  Forall2 same_upto3 l l' ->
  chebyshev_evaluate (Array l) rb_t = chebyshev_evaluate (Array l') rb_t
  /\ chebyshev_evaluate_derivative (Array l) rb_t rb_radius
     = chebyshev_evaluate_derivative (Array l') rb_t rb_radius
  /\ ((1 <= length l)%nat ->
      forallb well_formed_vec l = true ->
      numeric rb_t = true ->
      numeric rb_radius = true ->
      raises (chebyshev_evaluate (Array l') rb_t) = false
      /\ raises (chebyshev_evaluate_derivative (Array l') rb_t rb_radius)
         = false).
Proof.
  intros Hsame.
  pose proof (Forall2_same_upto3_components Hsame) as Hread.
  pose proof (Forall2_length Hsame) as Hlen.
  assert (Hev : chebyshev_evaluate (Array l) rb_t
                = chebyshev_evaluate (Array l') rb_t).
  { rewrite !chebyshev_evaluate_Array, <- Hlen.
    destruct (NUM2DBL rb_t) as [t | e]; cbn [bind]; [| reflexivity].
    rewrite (evaluate_loop_ext l l') by (intros; apply Hread).
    pose proof (Hread O) as Hread0. cbn [Z.of_nat] in Hread0.
    now rewrite Hread0. }
  assert (Hder : chebyshev_evaluate_derivative (Array l) rb_t rb_radius
                 = chebyshev_evaluate_derivative (Array l') rb_t rb_radius).
  { rewrite !chebyshev_evaluate_derivative_Array, <- Hlen.
    destruct (NUM2DBL rb_t) as [t | e]; cbn [bind]; [| reflexivity].
    destruct (NUM2DBL rb_radius) as [radius | e]; cbn [bind]; [| reflexivity].
    now rewrite (derivative_loop_ext l l') by (intros; apply Hread). }
  split; [exact Hev |]. split; [exact Hder |].
  intros Hn Hwf Ht Hr. rewrite <- Hev, <- Hder.
  destruct l as [| v0 rest]; [cbn in Hn; lia |].
  cbn [forallb] in Hwf. apply andb_true_iff in Hwf as [Hv0 Hrest].
  rewrite chebyshev_evaluate_raises, chebyshev_evaluate_derivative_raises.
  cbn [length nth].
  replace (S (length rest) - 1)%nat with (length rest) by lia.
  rewrite well_formed_down_tail, Ht, Hr, Hv0 by assumption.
  now rewrite orb_true_r.
Qed.
End Validation.

(** *** Validation on binary64 *)

(** C4 fails as stated: a record whose element 0 is [nil] is rejected by
    [evaluate] and accepted by [evaluate_derivative]. *)
Lemma evaluate_derivative_accepts_what_evaluate_rejects :
  let rb_coeffs := Array [Qnil; Array [Integer 1; Integer 2; Integer 3]] in
  chebyshev_evaluate rb_coeffs (Float 0%float) = Raise TypeError
  /\ chebyshev_evaluate_derivative rb_coeffs (Float 0%float) (Float 1%float)
     = Ok (Array [Float 86400%float; Float 172800%float; Float 259200%float])
  /\ ~ (raises (chebyshev_evaluate_derivative rb_coeffs (Float 0%float)
                  (Float 1%float)) = true
        <-> raises (chebyshev_evaluate rb_coeffs (Float 0%float)) = true).
Proof.
  cbv zeta. split; [vm_compute; reflexivity |].
  split; [vm_compute; reflexivity |].
  intros [_ Hback]. vm_compute in Hback.
  specialize (Hback eq_refl). discriminate Hback.
Qed.

Lemma evaluate_derivative_raises_only_if_evaluate_witness :
  let rb_coeffs :=
    Array [Array [Integer 1; Integer 2; Integer 3]; Array [Integer 4; Integer 5]]
  in
  raises (chebyshev_evaluate_derivative rb_coeffs (Float 0.25%float) (Integer 16))
  = true
  /\ raises (chebyshev_evaluate rb_coeffs (Float 0.25%float)) = true.
Proof.
  cbv zeta.
  destruct (@evaluate_derivative_raises_only_if_evaluate float binary64
              (Array [Array [Integer 1; Integer 2; Integer 3];
                      Array [Integer 4; Integer 5]])
              (Float 0.25%float) (Integer 16) eq_refl eq_refl)
    as [Himp Hsame].
  assert (Hder : raises (chebyshev_evaluate_derivative
                           (Array [Array [Integer 1; Integer 2; Integer 3];
                                   Array [Integer 4; Integer 5]])
                           (Float 0.25%float) (Integer 16)) = true)
    by reflexivity.
  split; [exact Hder | exact (Himp Hder)].
Defined.

(** C5 fails as stated: [evaluate_derivative] accepts a record whose
    element 0 has a single component. *)
Lemma evaluate_derivative_accepts_short_element_0 :
  let rb_coeffs :=
    Array [Array [Float 1%float]; Array [Integer 0; Integer 1; Integer 0]] in
  short_vec (Array [Float 1%float]) = true
  /\ chebyshev_evaluate_derivative rb_coeffs (Float 0%float) (Float 1%float)
     = Ok (Array [Float 0%float; Float 86400%float; Float 0%float])
  /\ raises (chebyshev_evaluate_derivative rb_coeffs (Float 0%float)
               (Float 1%float)) <> true.
Proof.
  cbv zeta. split; [reflexivity |]. split; [vm_compute; reflexivity |].
  vm_compute. discriminate.
Qed.

Lemma malformed_vector_rejected_witness :
  let l := [Array [Integer 1; Integer 2; Integer 3];
            Array [Float 4%float; Float 5%float]] in
  raises (chebyshev_evaluate (Array l) (Float 0.5%float)) = true
  /\ raises (chebyshev_evaluate_derivative (Array l) (Float 0.5%float)
               (Float 16%float)) = true.
Proof.
  cbv zeta.
  destruct (@malformed_vector_rejected float binary64
              [Array [Integer 1; Integer 2; Integer 3];
               Array [Float 4%float; Float 5%float]]
              1%nat (Array [Float 4%float; Float 5%float])
              (Float 0.5%float) (Float 16%float) eq_refl eq_refl)
    as [Hev Hder].
  split; [exact Hev | apply Hder; lia].
Defined.

Lemma evaluate_derivative_ignores_element_0_witness :
  let rest := [Array [Integer 0; Integer 1; Integer 0];
               Array [Integer 0; Integer 0; Integer 1]] in
  chebyshev_evaluate_derivative
    (Array (Array [Integer 1; Integer 0; Integer 0] :: rest))
    (Float 0.5%float) (Float 16%float)
  = chebyshev_evaluate_derivative
      (Array (String "no vector"%string :: rest))
      (Float 0.5%float) (Float 16%float).
Proof.
  cbv zeta.
  apply (@evaluate_derivative_ignores_element_0 float binary64
           (Array [Integer 1; Integer 0; Integer 0])
           (String "no vector"%string)
           [Array [Integer 0; Integer 1; Integer 0];
            Array [Integer 0; Integer 0; Integer 1]]
           (Float 0.5%float) (Float 16%float)).
  cbn. lia.
Defined.

Lemma components_beyond_2_ignored_witness :
  let l := [Array [Integer 1; Integer 2; Integer 3]] in
  let l' := [Array [Integer 1; Integer 2; Integer 3; String "more"%string; Qnil]]
  in
  Forall2 same_upto3 l l'
  /\ chebyshev_evaluate (Array l) (Float 0.5%float)
     = chebyshev_evaluate (Array l') (Float 0.5%float)
  /\ raises (chebyshev_evaluate (Array l') (Float 0.5%float)) = false.
Proof.
  cbv zeta.
  assert (Hsame :
            Forall2 (same_upto3 (D := float))
              [Array [Integer 1; Integer 2; Integer 3]]
              [Array [Integer 1; Integer 2; Integer 3;
                      String "more"%string; Qnil]]).
  { constructor; [| constructor]. right. do 2 eexists.
    repeat split; reflexivity. }
  destruct (@components_beyond_2_ignored float binary64 _ _
              (Float 0.5%float) (Float 1%float) Hsame)
    as (Hev & _ & Hacc).
  split; [exact Hsame |]. split; [exact Hev |].
  apply Hacc; [cbn; lia | reflexivity | reflexivity | reflexivity].
Defined.

(** ** A single coefficient on binary64 *)

Section Binary64Facts.
Local Open Scope float_scope.

Lemma is_nan_Prim2SF (x : float) :
  is_nan x = false -> Prim2SF x <> S754_nan.
Proof.
  unfold is_nan. rewrite eqb_spec. unfold SFeqb. intros Hx Hnan.
  rewrite Hnan in Hx. discriminate Hx.
Qed.

Lemma is_finite_Prim2SF (x : float) :
  is_finite x = true ->
  (exists s, Prim2SF x = S754_zero s)
  \/ (exists s m e, Prim2SF x = S754_finite s m e).
Proof.
  unfold is_finite, is_nan, is_infinity.
  rewrite !eqb_spec, abs_spec. unfold SFeqb.
  destruct (Prim2SF x) as [s | s | | s m e]; cbn.
  - intros _. left. now exists s.
  - destruct s; discriminate.
  - discriminate.
  - intros _. right. now exists s, m, e.
Qed.

(** The last statement of [chebyshev_evaluate] when the accumulators are
    still [0.0]: for a finite [t] it gives back [c] as a number (a [-0.0]
    may come back as [0.0]). *)
Lemma half_step_binary64 (t c : float) :
  is_finite t = true -> is_nan c = false ->
  (t * 0 - 0 + c =? c) = true.
Proof.
  intros Ht Hc. apply is_nan_Prim2SF in Hc.
  rewrite eqb_spec, add_spec, sub_spec, mul_spec.
  change (Prim2SF 0) with (S754_zero false).
  unfold SFeqb, SF64add, SF64sub, SF64mul.
  destruct (is_finite_Prim2SF _ Ht) as [[s ->] | (s & m & e & ->)];
    destruct (Prim2SF c) as [sc | sc | | sc mc ec] eqn:Hsf;
    try (now destruct Hc); destruct s; try destruct sc; cbn;
    try reflexivity;
    rewrite ?Z.compare_refl, ?Pos.compare_cont_refl; reflexivity.
Qed.

(** X11: On binary64, a record of one well-formed vector [c] and a finite [t]
    give a result equal to [c] as numbers ([=?] is the comparison [==] of
    doubles), in each component that is not a NaN. *)
Lemma evaluate_single_coefficient_binary64
      (v : VALUE float) (c : float * float * float)
      (rb_t : VALUE float) (t : float) :
  components v = Ok c ->
  NUM2DBL rb_t = Ok t ->
  is_finite t = true ->
  exists x y z,
    chebyshev_evaluate (Array [v]) rb_t = Ok (Array [Float x; Float y; Float z])
    /\ (is_nan (axis_x c) = false -> (x =? axis_x c) = true)
    /\ (is_nan (axis_y c) = false -> (y =? axis_y c) = true)
    /\ (is_nan (axis_z c) = false -> (z =? axis_z c) = true).
Proof.
  intros Hc Ht Hfin.
  rewrite chebyshev_evaluate_Array, Ht. cbn [bind length Nat.sub evaluate_loop].
  rewrite rb_ary_entry_0. cbn [nth]. rewrite Hc. cbn [bind].
  unfold combine, rb_ary_new_from_args3, DBL2NUM.
  cbn [a1x a1y a1z a2x a2y a2z zero_acc dadd dsub dmul binary64].
  change (of_long 0) with 0.
  do 3 eexists. split; [reflexivity |].
  repeat split; intros Hnan; now apply half_step_binary64.
Qed.
End Binary64Facts.

(** A coefficient [-0.0] comes back as [0.0] when [t] is positive. *)
Example evaluate_single_negative_zero :
  chebyshev_evaluate
    (Array [Array [Float (-0)%float; Float 2%float; Float 3%float]])
    (Float 1%float)
  = Ok (Array [Float 0%float; Float 2%float; Float 3%float]).
Proof. vm_compute. reflexivity. Qed.

(** ** Runs on binary64 *)

(** The series [T_0] on x, [T_1] on y, [T_2] on z, at [t = 0]. *)
Example evaluate_unit_vectors :
  chebyshev_evaluate
    (Array [Array [Integer 1; Integer 0; Integer 0];
            Array [Integer 0; Integer 1; Integer 0];
            Array [Integer 0; Integer 0; Integer 1]]) (Float 0%float)
  = Ok (Array [Float 1%float; Float 0%float; Float (-1)%float]).
Proof. vm_compute. reflexivity. Qed.

(** A constant series of two coefficients. *)
Example evaluate_constant_series :
  let rb_coeffs := Array [Array [Integer 2; Integer 0; Integer 0];
                          Array [Integer 0; Integer 0; Integer 0]] in
  chebyshev_evaluate rb_coeffs (Float 0.25%float)
  = Ok (Array [Float 2%float; Float 0%float; Float 0%float])
  /\ chebyshev_evaluate_derivative rb_coeffs (Float 0.25%float) (Float 16%float)
     = Ok (Array [Float 0%float; Float 0%float; Float 0%float]).
Proof. split; vm_compute; reflexivity. Qed.

(** The series [T_1] on x: its derivative 1 comes out as
    [86400 / radius]. *)
Example evaluate_derivative_linear_series :
  chebyshev_evaluate_derivative
    (Array [Array [Integer 0; Integer 0; Integer 0];
            Array [Integer 1; Integer 0; Integer 0]])
    (Float 0%float) (Float 1%float)
  = Ok (Array [Float 86400%float; Float 0%float; Float 0%float]).
Proof. vm_compute. reflexivity. Qed.

(** ** When the two functions return, and what *)

Section Acceptance.
Context {D : Type} `{DoubleOps D}.

Lemma well_formed_down_forallb (v0 : VALUE D) (rest : list (VALUE D)) :
  well_formed_down (v0 :: rest) (length rest) = forallb well_formed_vec rest.
Proof.
  destruct (forallb well_formed_vec rest) eqn:Hall.
  - now apply well_formed_down_tail.
  - destruct (well_formed_down (v0 :: rest) (length rest)) eqn:Hdown;
      [| reflexivity].
    rewrite well_formed_down_spec in Hdown.
    assert (Hrest : forallb well_formed_vec rest = true).
    { apply forallb_forall. intros v Hv.
      destruct (In_nth _ _ Qnil Hv) as (j & Hj & <-).
      apply (Hdown (S j)). lia. }
    congruence.
Qed.

Lemma chebyshev_evaluate_shape (rb_coeffs rb_t v : VALUE D) :
  chebyshev_evaluate rb_coeffs rb_t = Ok v ->
  exists x y z, v = Array [Float x; Float y; Float z].
Proof.
  destruct rb_coeffs as [| | | z | d | s | l]; try discriminate.
  rewrite chebyshev_evaluate_Array.
  destruct (NUM2DBL rb_t) as [t | e]; cbn [bind]; [| discriminate].
  destruct (evaluate_loop _ _ _ _) as [b | e]; cbn [bind]; [| discriminate].
  destruct (components _) as [c | e]; cbn [bind]; [| discriminate].
  intros [= <-]. do 3 eexists. reflexivity.
Qed.

Lemma chebyshev_evaluate_derivative_shape (rb_coeffs rb_t rb_radius v : VALUE D) :
  chebyshev_evaluate_derivative rb_coeffs rb_t rb_radius = Ok v ->
  exists x y z, v = Array [Float x; Float y; Float z].
Proof.
  destruct rb_coeffs as [| | | z | d | s | l]; try discriminate.
  rewrite chebyshev_evaluate_derivative_Array.
  destruct (NUM2DBL rb_t) as [t | e]; cbn [bind]; [| discriminate].
  destruct (NUM2DBL rb_radius) as [radius | e]; cbn [bind]; [| discriminate].
  destruct (length l <? 2)%nat.
  - intros [= <-]. do 3 eexists. reflexivity.
  - destruct (derivative_loop _ _ _ _) as [b | e]; cbn [bind]; [| discriminate].
    intros [= <-]. do 3 eexists. reflexivity.
Qed.

(** X1: [evaluate], for any arithmetic on [double], returns exactly on the
    arguments of [evaluate_accepts]: a non-empty Array whose elements are
    all well-formed vectors, and a numeric [t].  It then returns an Array of
    3 Floats; on every other argument it raises [TypeError]. *)
Theorem evaluate_returns_exactly_when_accepted (rb_coeffs rb_t : VALUE D) :
  if evaluate_accepts rb_coeffs rb_t
  then exists x y z,
         chebyshev_evaluate rb_coeffs rb_t
         = Ok (Array [Float x; Float y; Float z])
  else chebyshev_evaluate rb_coeffs rb_t = Raise TypeError.
Proof.
  assert (Hraise : forall r : result (VALUE D),
             raises r = true -> r = Raise TypeError)
    by (intros [v | []]; [discriminate | reflexivity]).
  destruct rb_coeffs as [| | | z | d | s | l]; try reflexivity.
  pose proof (chebyshev_evaluate_raises l rb_t) as Hr.
  destruct l as [| v0 rest].
  - apply Hraise. rewrite Hr. cbn. now rewrite andb_false_r.
  - cbn [evaluate_accepts forallb]. cbn [length nth] in Hr.
    replace (S (length rest) - 1)%nat with (length rest) in Hr by lia.
    rewrite well_formed_down_forallb in Hr.
    destruct (numeric rb_t), (well_formed_vec v0),
      (forallb well_formed_vec rest); cbn [andb negb] in *;
      try (now apply Hraise).
    destruct (chebyshev_evaluate (Array (v0 :: rest)) rb_t) as [v | e] eqn:Hv;
      [| discriminate].
    destruct (chebyshev_evaluate_shape _ _ Hv) as (x & y & z & ->).
    now exists x, y, z.
Qed.

(** X2: [evaluate_derivative], for any arithmetic on [double], returns exactly
    on the arguments of [evaluate_derivative_accepts]: an Array whose
    elements after the first are well-formed vectors (none is required of
    the first, and an empty Array is accepted), and numeric [t] and
    [radius].  It then returns an Array of 3 Floats; on every other
    argument it raises [TypeError]. *)
Theorem evaluate_derivative_returns_exactly_when_accepted
        (rb_coeffs rb_t rb_radius : VALUE D) :
  if evaluate_derivative_accepts rb_coeffs rb_t rb_radius
  then exists x y z,
         chebyshev_evaluate_derivative rb_coeffs rb_t rb_radius
         = Ok (Array [Float x; Float y; Float z])
  else chebyshev_evaluate_derivative rb_coeffs rb_t rb_radius
       = Raise TypeError.
Proof.
  assert (Hraise : forall r : result (VALUE D),
             raises r = true -> r = Raise TypeError)
    by (intros [v | []]; [discriminate | reflexivity]).
  destruct rb_coeffs as [| | | z | d | s | l]; try reflexivity.
  pose proof (chebyshev_evaluate_derivative_raises l rb_t rb_radius) as Hr.
  assert (Hdown : ((length l <? 2)%nat || well_formed_down l (length l - 1))
                  = forallb well_formed_vec (tl l)).
  { destruct l as [| v0 rest]; [reflexivity |]. cbn [length tl].
    replace (S (length rest) - 1)%nat with (length rest) by lia.
    rewrite well_formed_down_forallb.
    destruct rest as [| v1 rest]; [reflexivity |].
    destruct (Nat.ltb_spec (S (length (v1 :: rest))) 2) as [Hlt | _];
      [cbn [length] in Hlt; lia | reflexivity]. }
  rewrite Hdown in Hr. cbn [evaluate_derivative_accepts].
  destruct (numeric rb_t && numeric rb_radius && forallb well_formed_vec (tl l));
    cbn [negb] in Hr; [| now apply Hraise].
  destruct (chebyshev_evaluate_derivative (Array l) rb_t rb_radius)
    as [v | e] eqn:Hv; [| discriminate].
  destruct (chebyshev_evaluate_derivative_shape _ _ _ Hv) as (x & y & z & ->).
  now exists x, y, z.
Qed.

Lemma components_with_float_components (v : VALUE D) :
  components (with_float_components v) = components v.
Proof.
  destruct v as [| | | z | d | s | c]; try reflexivity.
  cbn [with_float_components]. rewrite !components_Array.
  assert (Hnum : forall j, NUM2DBL (nth j (map as_float c) Qnil)
                           = NUM2DBL (nth j c Qnil)).
  { intros j. change Qnil with (as_float Qnil) at 1. rewrite map_nth.
    now destruct (nth j c Qnil). }
  now rewrite !Hnum.
Qed.

(** Both functions depend on the record through the vectors [components]
    reads only. *)
Lemma same_components_same_results (l l' : list (VALUE D))
      (rb_t rb_radius : VALUE D) :
  length l = length l' ->
  (forall j : nat,
     components (rb_ary_entry l (Z.of_nat j))
     = components (rb_ary_entry l' (Z.of_nat j))) ->
  chebyshev_evaluate (Array l) rb_t = chebyshev_evaluate (Array l') rb_t
  /\ chebyshev_evaluate_derivative (Array l) rb_t rb_radius
     = chebyshev_evaluate_derivative (Array l') rb_t rb_radius.
Proof.
  intros Hlen Hread. split.
  - rewrite !chebyshev_evaluate_Array, <- Hlen.
    destruct (NUM2DBL rb_t) as [t | e]; cbn [bind]; [| reflexivity].
    rewrite (evaluate_loop_ext l l') by (intros; apply Hread).
    pose proof (Hread O) as Hread0. cbn [Z.of_nat] in Hread0.
    now rewrite Hread0.
  - rewrite !chebyshev_evaluate_derivative_Array, <- Hlen.
    destruct (NUM2DBL rb_t) as [t | e]; cbn [bind]; [| reflexivity].
    destruct (NUM2DBL rb_radius) as [radius | e]; cbn [bind]; [| reflexivity].
    now rewrite (derivative_loop_ext l l') by (intros; apply Hread).
Qed.

(** X3: Integer and Float components are interchangeable, for any arithmetic
    on [double]: replacing every Integer component of every inner Array by
    the Float it converts to changes the outcome of neither function. *)
Theorem integer_components_as_floats
        (l : list (VALUE D)) (rb_t rb_radius : VALUE D) :
  chebyshev_evaluate (Array (map with_float_components l)) rb_t
  = chebyshev_evaluate (Array l) rb_t
  /\ chebyshev_evaluate_derivative (Array (map with_float_components l))
       rb_t rb_radius
     = chebyshev_evaluate_derivative (Array l) rb_t rb_radius.
Proof.
  apply same_components_same_results; [apply length_map |].
  intros j. rewrite !rb_ary_entry_nth.
  change Qnil with (with_float_components Qnil) at 1.
  rewrite map_nth. apply components_with_float_components.
Qed.
End Acceptance.

(** ** Chebyshev series *)

Section SeriesProperties.
Local Open Scope R_scope.






Lemma chebyshev_T_at_1 (k : nat) : chebyshev_T k 1 = 1.
Proof.
  enough (Hboth : chebyshev_T k 1 = 1 /\ chebyshev_T (S k) 1 = 1)
    by apply Hboth.
  induction k as [| k [IH1 IH2]]; [split; reflexivity |].
  split; [exact IH2 |]. rewrite chebyshev_T_SS, IH1, IH2. ring.
Qed.


Lemma chebyshev_series_at_1 (c : list R) :
  chebyshev_series c 1 = plain_sum c.
Proof.
  unfold chebyshev_series, plain_sum. apply sum_below_ext.
  intros k _. rewrite chebyshev_T_at_1. ring.
Qed.





End SeriesProperties.

(** ** The three axes do not mix *)

Section Axes.
Context {D : Type} `{DoubleOps D}.
Local Open Scope double_scope.

Lemma clenshaw_ext (f g : nat -> D) (t2 : D) (k : nat) :
  (forall j, (1 <= j <= k)%nat -> f j = g j) ->
  forall b1 b2, clenshaw f t2 k b1 b2 = clenshaw g t2 k b1 b2.
Proof.
  induction k as [| k IH]; intros Hfg b1 b2; [reflexivity |].
  cbn [clenshaw]. rewrite Hfg by lia. apply IH. intros j Hj. apply Hfg. lia.
Qed.

Lemma same_on_axis_vectors (i : nat) (l l' : list (VALUE D)) :
  Forall2 (same_on_axis i) l l' ->
  length l = length l'
  /\ forall j, (j < length l)%nat ->
       components (rb_ary_entry l (Z.of_nat j)) = Ok (vector_of (nth j l Qnil))
       /\ components (rb_ary_entry l' (Z.of_nat j))
          = Ok (vector_of (nth j l' Qnil))
       /\ axis i (vector_of (nth j l Qnil))
          = axis i (vector_of (nth j l' Qnil)).
Proof.
  intros Hsame. split; [exact (Forall2_length Hsame) |].
  induction Hsame as [| u v l l' (cu & cv & Hu & Hv & Huv) _ IH];
    intros j Hj; [cbn in Hj; lia |].
  rewrite !rb_ary_entry_nth. destruct j as [| j]; cbn [nth].
  - unfold vector_of. now rewrite Hu, Hv.
  - cbn [length] in Hj. specialize (IH j ltac:(lia)).
    now rewrite !rb_ary_entry_nth in IH.
Qed.

(** X4: The two functions treat the axes independently, for any arithmetic on
    [double]: two records of well-formed vectors that agree on component
    [i] of every vector give the same component [i] of the result,
    whatever the other two components are. *)
Theorem axes_are_independent
        (i : nat) (l l' : list (VALUE D)) (rb_t rb_radius : VALUE D) :
  (i < 3)%nat ->
  Forall2 (same_on_axis i) l l' ->
  returned_component i (chebyshev_evaluate (Array l) rb_t)
  = returned_component i (chebyshev_evaluate (Array l') rb_t)
  /\ returned_component i
       (chebyshev_evaluate_derivative (Array l) rb_t rb_radius)
     = returned_component i
         (chebyshev_evaluate_derivative (Array l') rb_t rb_radius).
Proof.
  intros Hi Hsame.
  destruct (same_on_axis_vectors Hsame) as [Hlen Hvec].
  set (c := fun j => vector_of (nth j l Qnil)).
  set (c' := fun j => vector_of (nth j l' Qnil)).
  assert (Hread : forall j, (j < length l)%nat ->
             components (rb_ary_entry l (Z.of_nat j)) = Ok (c j))
    by (intros j Hj; apply (Hvec j Hj)).
  assert (Hread' : forall j, (j < length l')%nat ->
             components (rb_ary_entry l' (Z.of_nat j)) = Ok (c' j))
    by (intros j Hj; rewrite <- Hlen in Hj; apply (Hvec j Hj)).
  assert (Haxis : forall j, (j < length l)%nat -> axis i (c j) = axis i (c' j))
    by (intros j Hj; apply (Hvec j Hj)).
  split.
  - destruct l as [| v0 rest].
    { destruct l'; [reflexivity | discriminate]. }
    destruct (NUM2DBL rb_t) as [t | e] eqn:Ht.
    + assert (Hn : (1 <= length (v0 :: rest))%nat) by (cbn [length]; lia).
      assert (Hn' : (1 <= length l')%nat) by (rewrite <- Hlen; exact Hn).
      rewrite (@chebyshev_evaluate_clenshaw D _ (v0 :: rest) c rb_t t Hn
                 Hread Ht).
      rewrite (@chebyshev_evaluate_clenshaw D _ l' c' rb_t t Hn' Hread' Ht).
      rewrite <- Hlen.
      unfold combine, rb_ary_new_from_args3, DBL2NUM.
      destruct i as [| [| [| i]]]; [| | | lia];
        cbn [returned_component nth along_axes a1x a1y a1z a2x a2y a2z];
        cbn [axis] in Haxis;
        rewrite (Haxis O) by (cbn [length]; lia);
        (erewrite clenshaw_ext; [reflexivity |]);
        intros j Hj; apply Haxis; lia.
    + rewrite !chebyshev_evaluate_Array, Ht. reflexivity.
  - rewrite !chebyshev_evaluate_derivative_Array, <- Hlen.
    destruct (NUM2DBL rb_t) as [t | e]; cbn [bind]; [| reflexivity].
    destruct (NUM2DBL rb_radius) as [radius | e]; cbn [bind]; [| reflexivity].
    destruct (length l <? 2)%nat; [reflexivity |].
    rewrite (derivative_loop_clenshaw l c)
      by (intros j Hj; apply Hread; lia).
    rewrite (derivative_loop_clenshaw l' c')
      by (intros j Hj; apply Hread'; lia).
    cbn [bind]. unfold scaled, rb_ary_new_from_args3, DBL2NUM.
    destruct i as [| [| [| i]]]; [| | | lia];
      cbn [returned_component nth along_axes a1x a1y a1z a2x a2y a2z];
      cbn [axis] in Haxis;
      (erewrite clenshaw_ext; [reflexivity |]);
      intros j Hj; cbn beta; rewrite Haxis by lia; reflexivity.
Qed.
End Axes.

Lemma axes_are_independent_witness :
  let l := [Array [Integer 1; Float 2%float; Integer 3];
            Array [Integer 4; Float 0.5%float; Integer 6]] in
  let l' := [Array [Float 9%float; Float 2%float; Integer 8];
             Array [Integer 7; Float 0.5%float; Float 6.5%float; Qnil]] in
  returned_component 1 (chebyshev_evaluate (Array l) (Float 0.25%float))
  = returned_component 1 (chebyshev_evaluate (Array l') (Float 0.25%float))
  /\ returned_component 1
       (chebyshev_evaluate_derivative (Array l) (Float 0.25%float) (Integer 16))
     = returned_component 1
         (chebyshev_evaluate_derivative (Array l') (Float 0.25%float)
            (Integer 16)).
Proof.
  cbv zeta.
  apply (@axes_are_independent float binary64 1%nat
           [Array [Integer 1; Float 2%float; Integer 3];
            Array [Integer 4; Float 0.5%float; Integer 6]]
           [Array [Float 9%float; Float 2%float; Integer 8];
            Array [Integer 7; Float 0.5%float; Float 6.5%float; Qnil]]
           (Float 0.25%float) (Integer 16)).
  - lia.
  - repeat constructor; do 2 eexists; repeat split; reflexivity.
Defined.

Lemma evaluate_single_coefficient_binary64_witness :
  exists x y z,
    chebyshev_evaluate
      (Array [Array [Float 7%float; Float (-0)%float; Integer 3]])
      (Float 0.5%float)
    = Ok (Array [Float x; Float y; Float z])
    /\ (is_nan 7%float = false -> (x =? 7)%float = true)
    /\ (is_nan (-0)%float = false -> (y =? -0)%float = true)
    /\ (is_nan 3%float = false -> (z =? 3)%float = true).
Proof.
  apply (@evaluate_single_coefficient_binary64
           (Array [Float 7%float; Float (-0)%float; Integer 3])
           (7%float, (-0)%float, 3%float) (Float 0.5%float) 0.5%float).
  - reflexivity.
  - reflexivity.
  - reflexivity.
Defined.

(** ** Runs without rounding on binary64 *)

Section ExactRuns.
Local Open Scope R_scope.

Lemma to_R_zero : to_R (of_long 0) = 0.
Proof.
  unfold to_R. change (to_frac (of_long 0)) with (0%Z, 1%Z). cbn [fst snd]. lra.
Qed.

Lemma clenshaw_real_ext (g g' : nat -> R) (t2 : R) (k : nat) :
  (forall j, (1 <= j <= k)%nat -> g j = g' j) ->
  forall b1 b2, clenshaw_real g t2 k b1 b2 = clenshaw_real g' t2 k b1 b2.
Proof.
  induction k as [| k IH]; intros Hg b1 b2; [reflexivity |].
  cbn [clenshaw_real]. rewrite Hg by lia. apply IH. intros j Hj. apply Hg. lia.
Qed.

(** When every update is exact, the accumulators stand for those of the
    recurrence over the reals. *)
Lemma clenshaw_to_R (f : nat -> float) (t2 : float) (k : nat) :
  forall b1 b2,
    clenshaw_is_exact f t2 k b1 b2 ->
    to_R (fst (clenshaw f t2 k b1 b2))
    = fst (clenshaw_real (fun j => to_R (f j)) (to_R t2) k (to_R b1) (to_R b2))
    /\ to_R (snd (clenshaw f t2 k b1 b2))
       = snd (clenshaw_real (fun j => to_R (f j)) (to_R t2) k
                (to_R b1) (to_R b2)).
Proof.
  induction k as [| k IH]; intros b1 b2 Hexact; [split; reflexivity |].
  destruct Hexact as [[_ Hval] Hrest].
  cbn [clenshaw clenshaw_real]. rewrite <- Hval. now apply IH.
Qed.

Lemma clenshaw_finite (f : nat -> float) (t2 : float) (k : nat) :
  forall b1 b2,
    clenshaw_is_exact f t2 k b1 b2 ->
    is_finite b1 = true ->
    is_finite (fst (clenshaw f t2 k b1 b2)) = true.
Proof.
  induction k as [| k IH]; intros b1 b2 Hexact Hb1; [exact Hb1 |].
  destruct Hexact as [[Hfin _] Hrest]. cbn [clenshaw]. now apply IH.
Qed.

(** A record whose vectors are [cs]. *)
Lemma record_vectors {D : Type} `{DoubleOps D}
      (l : list (VALUE D)) (cs : list (D * D * D)) (d : D * D * D) :
  map components l = map Ok cs ->
  length l = length cs /\
  forall j, (j < length l)%nat ->
    components (rb_ary_entry l (Z.of_nat j)) = Ok (nth j cs d).
Proof.
  intros Hcs.
  assert (Hlen : length l = length cs)
    by (rewrite <- (length_map components l), Hcs; apply length_map).
  split; [exact Hlen |]. intros j Hj.
  rewrite rb_ary_entry_nth.
  rewrite <- (map_nth components), <- (map_nth (@Ok (D * D * D))).
  rewrite <- Hcs. apply nth_indep. now rewrite length_map.
Qed.

Lemma nth_real_axis (p : float * float * float -> float)
      (cs : list (float * float * float)) (j : nat) :
  to_R (p (of_long 0, of_long 0, of_long 0)) = 0 ->
  to_R (p (nth j cs (of_long 0, of_long 0, of_long 0)))
  = nth j (real_axis p cs) 0.
Proof.
  intros Hp. unfold real_axis.
  set (h := fun c => to_R (p c)).
  change (h (nth j cs (of_long 0, of_long 0, of_long 0))
          = nth j (map h cs) 0).
  rewrite <- (map_nth h). f_equal. exact Hp.
Qed.

(** Clenshaw's identity on a list of real coefficients. *)
Lemma axis_series (c : list R) (t : R) :
  (1 <= length c)%nat ->
  t * fst (clenshaw_real (fun j => nth j c 0) (2 * t) (length c - 1) 0 0)
  - snd (clenshaw_real (fun j => nth j c 0) (2 * t) (length c - 1) 0 0)
  + nth 0 c 0
  = chebyshev_series c t.
Proof.
  intros Hlen. rewrite (clenshaw_T (fun j => nth j c 0)).
  replace (S (length c - 1)) with (length c) by lia.
  unfold chebyshev_series. ring.
Qed.

Lemma axis_series_derivative (c : list R) (t : R) :
  (1 <= length c)%nat ->
  fst (clenshaw_real (fun j => 2 * IZR (Z.of_nat j) * nth j c 0)
         (2 * t) (length c - 1) 0 0)
  = 2 * chebyshev_series_derivative c t.
Proof.
  intros Hlen.
  rewrite (clenshaw_U1 (fun j => 2 * IZR (Z.of_nat j) * nth j c 0)).
  replace (S (length c - 1)) with (length c) by lia.
  unfold chebyshev_series_derivative. rewrite <- sum_below_scal.
  rewrite (@sum_below_ext (length c) _
             (fun k => 2 * (nth k c 0
                            * (IZR (Z.of_nat k) * chebyshev_U1 k t))));
    [ring |].
  intros k _. ring.
Qed.

(** One axis of [chebyshev_evaluate] that runs without rounding returns
    the double that stands for the direct summation. *)
Lemma evaluate_axis_value (p : float * float * float -> float)
      (cs : list (float * float * float)) (t : float) :
  to_R (p (of_long 0, of_long 0, of_long 0)) = 0 ->
  (1 <= length cs)%nat ->
  let f := fun j => p (nth j cs (of_long 0, of_long 0, of_long 0)) in
  let b := clenshaw f (of_long 2 * t)%dbl (length cs - 1)
             (of_long 0) (of_long 0) in
  evaluate_axis_exact f t (length cs) ->
  exactly (t * fst b - snd b + f O)%dbl
          (chebyshev_series (real_axis p cs) (to_R t)).
Proof.
  intros Hp Hn f b Hexact. subst b.
  unfold evaluate_axis_exact in Hexact. cbv zeta in Hexact.
  destruct Hexact as (Ht2 & Hloop & Hfin & Hval).
  split; [exact Hfin |]. rewrite Hval.
  destruct (clenshaw_to_R _ _ _ _ _ Hloop) as [Hb1 Hb2].
  rewrite Hb1, Hb2.
  destruct Ht2 as [_ Ht2]. rewrite Ht2, to_R_zero.
  assert (Hlen : length (real_axis p cs) = length cs)
    by (unfold real_axis; apply length_map).
  rewrite (clenshaw_real_ext (fun j => to_R (f j))
             (fun j => nth j (real_axis p cs) 0))
    by (intros j _; now apply nth_real_axis).
  replace (to_R (f O)) with (nth 0 (real_axis p cs) 0)
    by (symmetry; now apply nth_real_axis).
  rewrite <- Hlen. apply axis_series. rewrite Hlen. exact Hn.
Qed.
End ExactRuns.

(** ** The value of [chebyshev_evaluate] on binary64 *)

Section EvaluateValue.
Local Open Scope R_scope.

(** [chebyshev_evaluate] on a run that does not round. *)
Lemma evaluate_value_when_exact
      (l : list (VALUE float)) (cs : list (float * float * float))
      (rb_t : VALUE float) (t : float) :
  (1 <= length l)%nat ->
  map components l = map Ok cs ->
  NUM2DBL rb_t = Ok t ->
  evaluate_is_exact cs t ->
  exists x y z,
    chebyshev_evaluate (Array l) rb_t = Ok (Array [Float x; Float y; Float z])
    /\ exactly x (chebyshev_series (real_axis axis_x cs) (to_R t))
    /\ exactly y (chebyshev_series (real_axis axis_y cs) (to_R t))
    /\ exactly z (chebyshev_series (real_axis axis_z cs) (to_R t)).
Proof.
  intros Hn Hcs Ht (Hx & Hy & Hz).
  destruct (record_vectors l cs (of_long 0, of_long 0, of_long 0) Hcs)
    as [Hlen Hread].
  rewrite (@chebyshev_evaluate_clenshaw float binary64 l
             (fun j => nth j cs (of_long 0, of_long 0, of_long 0))
             rb_t t Hn Hread Ht).
  rewrite Hlen in *.
  unfold combine, rb_ary_new_from_args3, DBL2NUM.
  cbn [along_axes a1x a1y a1z a2x a2y a2z zero_acc].
  do 3 eexists. split; [reflexivity |].
  pose proof (@evaluate_axis_value axis_x cs t to_R_zero Hn Hx) as Hvx.
  pose proof (@evaluate_axis_value axis_y cs t to_R_zero Hn Hy) as Hvy.
  pose proof (@evaluate_axis_value axis_z cs t to_R_zero Hn Hz) as Hvz.
  cbv zeta in Hvx, Hvy, Hvz.
  split; [exact Hvx | split; [exact Hvy | exact Hvz]].
Qed.

(** C2, as the code has it: on binary64, for a record of n >= 1
    well-formed vectors [cs], the loop runs for k from n-1 down to 1 with
    [t2 = 2 * t] and leaves accumulators [b], and each component of
    [evaluate] is [t * b1_a - b2_a + cs[0][a]], computed in doubles.  When
    the run does not round (the doubling of [t], every accumulator update
    and the last statement are exact, results finite), that component is
    the finite double that stands for the direct summation
    [sum_(k<n) cs[k][a] * T_k(t)] of the Chebyshev series of its axis. *)
Theorem evaluate_is_direct_summation_when_exact
        (l : list (VALUE float)) (cs : list (float * float * float))
        (rb_t : VALUE float) (t : float) :
  (1 <= length l)%nat ->
  map components l = map Ok cs ->
  NUM2DBL rb_t = Ok t ->
  exists b c0,
    evaluate_loop l (of_long 2 * t)%dbl (Z.to_nat (RARRAY_LEN l - 1)) zero_acc
    = Ok b
    /\ nth_error cs 0 = Some c0
    /\ chebyshev_evaluate (Array l) rb_t
       = Ok (Array [Float (t * a1x b - a2x b + axis_x c0)%dbl;
                    Float (t * a1y b - a2y b + axis_y c0)%dbl;
                    Float (t * a1z b - a2z b + axis_z c0)%dbl])
    /\ (evaluate_is_exact cs t ->
        exactly (t * a1x b - a2x b + axis_x c0)%dbl
                (chebyshev_series (real_axis axis_x cs) (to_R t))
        /\ exactly (t * a1y b - a2y b + axis_y c0)%dbl
                   (chebyshev_series (real_axis axis_y cs) (to_R t))
        /\ exactly (t * a1z b - a2z b + axis_z c0)%dbl
                   (chebyshev_series (real_axis axis_z cs) (to_R t))).
Proof.
  intros Hn Hcs Ht.
  destruct (record_vectors l cs (of_long 0, of_long 0, of_long 0) Hcs)
    as [Hlen Hread].
  set (c := fun j => nth j cs (of_long 0, of_long 0, of_long 0)).
  exists (along_axes (fun j => axis_x (c j)) (fun j => axis_y (c j))
            (fun j => axis_z (c j)) (of_long 2 * t)%dbl (length l - 1)
            zero_acc), (c O).
  split; [| split; [| split]].
  - rewrite loop_bound. apply evaluate_loop_clenshaw.
    intros j Hj. apply Hread. lia.
  - subst c. destruct cs as [| c0 cs]; [cbn in Hlen; lia | reflexivity].
  - exact (@chebyshev_evaluate_clenshaw float binary64 l c rb_t t Hn
             Hread Ht).
  - intros (Hx & Hy & Hz). rewrite Hlen in *.
    cbn [along_axes a1x a1y a1z a2x a2y a2z zero_acc].
    pose proof (@evaluate_axis_value axis_x cs t to_R_zero Hn Hx) as Hvx.
    pose proof (@evaluate_axis_value axis_y cs t to_R_zero Hn Hy) as Hvy.
    pose proof (@evaluate_axis_value axis_z cs t to_R_zero Hn Hz) as Hvz.
    cbv zeta in Hvx, Hvy, Hvz.
    split; [exact Hvx | split; [exact Hvy | exact Hvz]].
Qed.
End EvaluateValue.

(** Shows that a closed double is [exactly] a closed real expression. *)
Ltac to_R_values :=
  unfold to_R;
  repeat match goal with
         | |- context [to_frac ?x] =>
             let p := eval vm_compute in (to_frac x) in
             replace (to_frac x) with p by (vm_compute; reflexivity)
         end;
  cbn [fst snd].

Ltac show_exactly :=
  split;
  [ vm_compute; reflexivity
  | to_R_values; cbn [Z.of_nat Pos.of_succ_nat Pos.succ]; lra ].

(** Shows that a run on closed arguments does not round. *)
Ltac exact_run :=
  unfold evaluate_is_exact, derivative_is_exact;
  repeat match goal with
         | |- exactly _ _ => show_exactly
         | |- True => exact I
         | |- _ /\ _ => split
         | |- evaluate_axis_exact _ _ _ =>
             unfold evaluate_axis_exact; cbv zeta;
             cbn [length Nat.sub clenshaw_is_exact]
         | |- derivative_axis_exact _ _ _ _ =>
             unfold derivative_axis_exact; cbv zeta;
             cbn [length Nat.sub clenshaw_is_exact]
         | |- forall k : nat, (1 <= k <= 1)%nat -> _ =>
             let Hk := fresh "Hk" in
             intros k Hk; replace k with 1%nat by lia
         | |- forall k : nat, (1 <= k <= 2)%nat -> _ =>
             let Hk := fresh "Hk" in
             let Hcases := fresh "Hcases" in
             intros k Hk;
             assert (Hcases : k = 1%nat \/ k = 2%nat) by lia;
             destruct Hcases as [-> | ->]
         end.

Lemma evaluate_is_direct_summation_when_exact_witness :
  let l := [Array [Integer 1; Integer 2; Integer 3];
            Array [Integer 4; Integer 5; Integer 6];
            Array [Integer 7; Integer 8; Float 0.5%float]] in
  let cs := [(1, 2, 3); (4, 5, 6); (7, 8, 0.5)]%float in
  evaluate_is_exact cs 0.25%float
  /\ exists b c0,
      evaluate_loop l (of_long 2 * 0.25%float)%dbl 2 zero_acc = Ok b
      /\ nth_error cs 0 = Some c0
      /\ chebyshev_evaluate (Array l) (Float 0.25%float)
         = Ok (Array [Float (0.25%float * a1x b - a2x b + axis_x c0)%dbl;
                      Float (0.25%float * a1y b - a2y b + axis_y c0)%dbl;
                      Float (0.25%float * a1z b - a2z b + axis_z c0)%dbl])
      /\ (evaluate_is_exact cs 0.25%float ->
          exactly (0.25%float * a1x b - a2x b + axis_x c0)%dbl
                  (chebyshev_series (real_axis axis_x cs) (to_R 0.25%float))
          /\ exactly (0.25%float * a1y b - a2y b + axis_y c0)%dbl
                     (chebyshev_series (real_axis axis_y cs)
                        (to_R 0.25%float))
          /\ exactly (0.25%float * a1z b - a2z b + axis_z c0)%dbl
                     (chebyshev_series (real_axis axis_z cs)
                        (to_R 0.25%float))).
Proof.
  cbv zeta. split; [exact_run |].
  apply (@evaluate_is_direct_summation_when_exact
           [Array [Integer 1; Integer 2; Integer 3];
            Array [Integer 4; Integer 5; Integer 6];
            Array [Integer 7; Integer 8; Float 0.5%float]]
           [(1, 2, 3); (4, 5, 6); (7, 8, 0.5)]%float
           (Float 0.25%float) 0.25%float).
  - simpl. lia.
  - reflexivity.
  - reflexivity.
Defined.

(** C2 fails as stated.  With [t = 2^-60] the series [T_0 + T_1] on x has
    the value [1 + 2^-60]; the code returns [1.0], the sum rounded.  With
    a coefficient [2^1023] of degree 3 and [t = 1] the sum is [2^1023]; the
    code returns NaN on x ([2 * 2^1023] overflows in the loop). *)
Lemma evaluate_rounds_and_overflows :
  chebyshev_evaluate
    (Array [Array [Integer 1; Integer 0; Integer 0];
            Array [Integer 1; Integer 0; Integer 0]]) (Float 0x1p-60%float)
  = Ok (Array [Float 1%float; Float 0%float; Float 0%float])
  /\ to_R 1%float
     <> chebyshev_series (real_axis axis_x [(1, 0, 0); (1, 0, 0)]%float)
          (to_R 0x1p-60%float)
  /\ chebyshev_evaluate
       (Array [Array [Integer 0; Integer 0; Integer 0];
               Array [Integer 0; Integer 0; Integer 0];
               Array [Integer 0; Integer 0; Integer 0];
               Array [Float 0x1p1023%float; Integer 0; Integer 1]])
       (Float 1%float)
     = Ok (Array [Float nan; Float 0%float; Float 1%float])
  /\ chebyshev_series
       (real_axis axis_x [(0, 0, 0); (0, 0, 0); (0, 0, 0); (0x1p1023, 0, 1)]%float)
       (to_R 1%float)
     = to_R 0x1p1023%float
  /\ is_finite nan = false.
Proof.
  split; [vm_compute; reflexivity |].
  split.
  { unfold chebyshev_series, real_axis.
    cbn [map length sum_below nth chebyshev_T axis_x fst].
    to_R_values. intros Heq. lra. }
  split; [vm_compute; reflexivity |].
  split; [| reflexivity].
  unfold chebyshev_series, real_axis.
  cbn [map length sum_below nth chebyshev_T axis_x fst].
  to_R_values. lra.
Qed.

(** C8, as the code has it: on binary64, when the coefficients of a record
    [l'] have [a] times the values of those of a well-formed record [l] of
    n >= 1 vectors, and neither run rounds, each component of [evaluate] on
    [l'] is the finite double that stands for [a] times the component of
    [evaluate] on [l]. *)
Theorem evaluate_linear_when_exact
        (l l' : list (VALUE float)) (cs cs' : list (float * float * float))
        (a : R) (rb_t : VALUE float) (t : float) :
  (1 <= length l)%nat ->
  map components l = map Ok cs ->
  map components l' = map Ok cs' ->
  real_axis axis_x cs' = map (Rmult a) (real_axis axis_x cs) ->
  real_axis axis_y cs' = map (Rmult a) (real_axis axis_y cs) ->
  real_axis axis_z cs' = map (Rmult a) (real_axis axis_z cs) ->
  NUM2DBL rb_t = Ok t ->
  evaluate_is_exact cs t ->
  evaluate_is_exact cs' t ->
  exists x y z x' y' z',
    chebyshev_evaluate (Array l) rb_t = Ok (Array [Float x; Float y; Float z])
    /\ chebyshev_evaluate (Array l') rb_t
       = Ok (Array [Float x'; Float y'; Float z'])
    /\ exactly x' (a * to_R x)%R
    /\ exactly y' (a * to_R y)%R
    /\ exactly z' (a * to_R z)%R.
Proof.
  intros Hn Hcs Hcs' Hax Hay Haz Ht Hexact Hexact'.
  assert (Hn' : (1 <= length l')%nat).
  { destruct (record_vectors l cs (of_long 0, of_long 0, of_long 0) Hcs)
      as [Hlen _].
    destruct (record_vectors l' cs' (of_long 0, of_long 0, of_long 0) Hcs')
      as [Hlen' _].
    apply (f_equal (@length R)) in Hax. unfold real_axis in Hax.
    rewrite !length_map in Hax. lia. }
  destruct (evaluate_value_when_exact l rb_t Hn Hcs Ht Hexact)
    as (x & y & z & Hv & [_ Hx] & [_ Hy] & [_ Hz]).
  destruct (evaluate_value_when_exact l' rb_t Hn' Hcs' Ht Hexact')
    as (x' & y' & z' & Hv' & [Hfx Hx'] & [Hfy Hy'] & [Hfz Hz']).
  exists x, y, z, x', y', z'.
  split; [exact Hv |]. split; [exact Hv' |].
  rewrite Hax, chebyshev_series_scal, <- Hx in Hx'.
  rewrite Hay, chebyshev_series_scal, <- Hy in Hy'.
  rewrite Haz, chebyshev_series_scal, <- Hz in Hz'.
  repeat split; assumption.
Qed.

Lemma evaluate_linear_when_exact_witness :
  exists x y z x' y' z',
    chebyshev_evaluate
      (Array [Array [Integer 1; Integer 2; Integer 3];
              Array [Integer 4; Integer 5; Integer 6]]) (Float 0.25%float)
    = Ok (Array [Float x; Float y; Float z])
    /\ chebyshev_evaluate
         (Array [Array [Integer 3; Integer 6; Integer 9];
                 Array [Integer 12; Integer 15; Integer 18]])
         (Float 0.25%float)
       = Ok (Array [Float x'; Float y'; Float z'])
    /\ exactly x' (3 * to_R x)%R
    /\ exactly y' (3 * to_R y)%R
    /\ exactly z' (3 * to_R z)%R.
Proof.
  apply (@evaluate_linear_when_exact
           [Array [Integer 1; Integer 2; Integer 3];
            Array [Integer 4; Integer 5; Integer 6]]
           [Array [Integer 3; Integer 6; Integer 9];
            Array [Integer 12; Integer 15; Integer 18]]
           [(1, 2, 3); (4, 5, 6)]%float [(3, 6, 9); (12, 15, 18)]%float
           3%R (Float 0.25%float) 0.25%float).
  - simpl. lia.
  - reflexivity.
  - reflexivity.
  - unfold real_axis. cbn [map axis_x fst]. repeat f_equal; to_R_values; lra.
  - unfold real_axis. cbn [map axis_y fst snd].
    repeat f_equal; to_R_values; lra.
  - unfold real_axis. cbn [map axis_z snd].
    repeat f_equal; to_R_values; lra.
  - reflexivity.
  - exact_run.
  - exact_run.
Defined.

(** C8 fails as stated.  At [t = 0.1] (the double nearest to it) the
    record [[1,2,3],[4,5,6]] gives [x = 1.3999999999999999] and the record
    multiplied by 3 gives [x' = 4.2000000000000002]: [x'] is neither 3
    times [x] as a real number nor the double [3 * x]. *)
Lemma evaluate_not_linear_on_doubles :
  exists x y z x' y' z',
    chebyshev_evaluate
      (Array [Array [Integer 1; Integer 2; Integer 3];
              Array [Integer 4; Integer 5; Integer 6]])
      (Float 0x1.999999999999ap-4%float)
    = Ok (Array [Float x; Float y; Float z])
    /\ chebyshev_evaluate
         (Array [Array [Integer 3; Integer 6; Integer 9];
                 Array [Integer 12; Integer 15; Integer 18]])
         (Float 0x1.999999999999ap-4%float)
       = Ok (Array [Float x'; Float y'; Float z'])
    /\ to_R x' <> (3 * to_R x)%R
    /\ (x' =? 3 * x)%float = false.
Proof.
  do 6 eexists.
  split; [vm_compute; reflexivity |].
  split; [vm_compute; reflexivity |].
  split; [| vm_compute; reflexivity].
  to_R_values. intros Heq. lra.
Qed.

(** ** A single coefficient on binary64, bit for bit *)

Section SingleCoefficient.
Local Open Scope float_scope.

Lemma is_zero_Prim2SF (c : float) :
  is_zero c = true <-> exists s, Prim2SF c = S754_zero s.
Proof.
  unfold is_zero. rewrite eqb_spec.
  change (Prim2SF zero) with (S754_zero false). unfold SFeqb.
  destruct (Prim2SF c) as [s | s | | s m e]; cbn.
  - split; [intros _; now exists s | reflexivity].
  - split; [destruct s; discriminate | intros [s' Hs']; discriminate].
  - split; [discriminate | intros [s' Hs']; discriminate].
  - split; [destruct s; discriminate | intros [s' Hs']; discriminate].
Qed.

Lemma half_step_verbatim (t c : float) :
  is_finite t = true -> is_zero c = false -> t * 0 - 0 + c = c.
Proof.
  intros Ht Hc.
  assert (Hsf : Prim2SF (t * 0 - 0 + c) = Prim2SF c).
  { rewrite add_spec, sub_spec, mul_spec.
    change (Prim2SF 0) with (S754_zero false).
    unfold SF64add, SF64sub, SF64mul.
    destruct (is_finite_Prim2SF _ Ht) as [[s ->] | (s & m & e & ->)];
      destruct (Prim2SF c) as [sc | sc | | sc mc ec] eqn:Hsf;
      try (now destruct s);
      (assert (Hz : is_zero c = true)
        by (apply is_zero_Prim2SF; now exists sc)); congruence. }
  rewrite <- (SF2Prim_Prim2SF (t * 0 - 0 + c)), Hsf.
  apply SF2Prim_Prim2SF.
Qed.

Lemma half_step_zero (t c : float) :
  is_finite t = true -> is_zero c = true -> is_zero (t * 0 - 0 + c) = true.
Proof.
  intros Ht Hc. apply is_zero_Prim2SF in Hc as [sc Hc].
  apply is_zero_Prim2SF.
  rewrite add_spec, sub_spec, mul_spec, Hc.
  change (Prim2SF 0) with (S754_zero false).
  unfold SF64add, SF64sub, SF64mul.
  destruct (is_finite_Prim2SF _ Ht) as [[s ->] | (s & m & e & ->)];
    destruct s, sc; cbn; eexists; reflexivity.
Qed.


(** C7, as the code has it: on binary64, for a record of exactly one
    well-formed vector and a finite [t], the loop performs no iteration
    and leaves the accumulators at 0, and each component of the result is
    the double [NUM2DBL] reads from the corresponding component: that
    very double when it is not a zero, and a zero (whose sign can depend
    on [t]) when it is a zero. *)
Theorem evaluate_single_coefficient_read_back
        (v : VALUE float) (c : float * float * float)
        (rb_t : VALUE float) (t : float) :
  components v = Ok c ->
  NUM2DBL rb_t = Ok t ->
  is_finite t = true ->
  evaluate_loop [v] (of_long 2 * t)%dbl (Z.to_nat (RARRAY_LEN [v] - 1))
    zero_acc
  = Ok zero_acc
  /\ exists x y z,
      chebyshev_evaluate (Array [v]) rb_t
      = Ok (Array [Float x; Float y; Float z])
      /\ read_back x (axis_x c)
      /\ read_back y (axis_y c)
      /\ read_back z (axis_z c).
Proof.
  intros Hc Ht Hfin. split; [reflexivity |].
  rewrite chebyshev_evaluate_Array, Ht. cbn [bind length Nat.sub evaluate_loop].
  rewrite rb_ary_entry_0. cbn [nth]. rewrite Hc. cbn [bind].
  unfold combine, rb_ary_new_from_args3, DBL2NUM.
  cbn [a1x a1y a1z a2x a2y a2z zero_acc dadd dsub dmul binary64].
  change (of_long 0) with 0.
  do 3 eexists. split; [reflexivity |].
  repeat split; intros Hz;
    first [now apply half_step_verbatim | now apply half_step_zero].
Qed.
End SingleCoefficient.

Lemma evaluate_single_coefficient_read_back_witness :
  exists x y z,
    chebyshev_evaluate
      (Array [Array [Float 7%float; Float (-0)%float; Integer 3]])
      (Float (-0.5)%float)
    = Ok (Array [Float x; Float y; Float z])
    /\ read_back x 7%float
    /\ read_back y (-0)%float
    /\ read_back z 3%float.
Proof.
  apply (@evaluate_single_coefficient_read_back
           (Array [Float 7%float; Float (-0)%float; Integer 3])
           (7%float, (-0)%float, 3%float) (Float (-0.5)%float) (-0.5)%float).
  - reflexivity.
  - reflexivity.
  - reflexivity.
Defined.

(** C7 fails as stated.  The coefficient [-0.0] comes back as [0.0] at
    [t = 1] and as [-0.0] at [t = -1]: the result is not the coefficient
    verbatim and depends on [t].  An Integer coefficient [2^53 + 1] comes
    back as the Float [2^53] that [NUM2DBL] reads.  At an infinite [t] every
    component is NaN ([t * 0.0] is NaN). *)
Lemma evaluate_single_coefficient_not_verbatim :
  chebyshev_evaluate
    (Array [Array [Float (-0)%float; Float 2%float; Float 3%float]])
    (Float 1%float)
  = Ok (Array [Float 0%float; Float 2%float; Float 3%float])
  /\ chebyshev_evaluate
       (Array [Array [Float (-0)%float; Float 2%float; Float 3%float]])
       (Float (-1)%float)
     = Ok (Array [Float (-0)%float; Float 2%float; Float 3%float])
  /\ Float 0%float <> Float (-0)%float
  /\ chebyshev_evaluate
       (Array [Array [Integer 9007199254740993; Integer 0; Integer 0]])
       (Float 0%float)
     = Ok (Array [Float 9007199254740992%float; Float 0%float; Float 0%float])
  /\ chebyshev_evaluate
       (Array [Array [Float 1%float; Float 2%float; Float 3%float]])
       (Float infinity)
     = Ok (Array [Float nan; Float nan; Float nan]).
Proof.
  split; [vm_compute; reflexivity |].
  split; [vm_compute; reflexivity |].
  split; [| split; vm_compute; reflexivity].
  intros Heq.
  apply (f_equal (fun v : VALUE float =>
                    match v with
                    | Float x => (1 / x <? 0)%float
                    | _ => false
                    end)) in Heq.
  vm_compute in Heq. discriminate Heq.
Qed.

(** ** The value of [chebyshev_evaluate_derivative] on binary64 *)

Section DerivativeValue.
Local Open Scope R_scope.

(** One axis of [chebyshev_evaluate_derivative] that runs without
    rounding: the accumulator stands for twice the derivative of the
    series, the result for the derivative times [86400 / radius]. *)
Lemma derivative_axis_value (p : float * float * float -> float)
      (cs : list (float * float * float)) (t radius : float) :
  to_R (p (of_long 0, of_long 0, of_long 0)) = 0 ->
  (1 <= length cs)%nat ->
  to_R radius <> 0 ->
  let f := fun k =>
             (of_long 2 * of_long (Z.of_nat k)
              * p (nth k cs (of_long 0, of_long 0, of_long 0)))%dbl in
  let d := clenshaw f (of_long 2 * t)%dbl (length cs - 1)
             (of_long 0) (of_long 0) in
  let scale := (SECONDS_PER_DAY / (of_long 2 * radius))%dbl in
  derivative_axis_exact
    (fun j => p (nth j cs (of_long 0, of_long 0, of_long 0))) t radius
    (length cs) ->
  exactly (fst d)
          (2 * chebyshev_series_derivative (real_axis p cs) (to_R t))
  /\ exactly (fst d * scale)%dbl
             (chebyshev_series_derivative (real_axis p cs) (to_R t)
              * (86400 / to_R radius)).
Proof.
  intros Hp Hn Hr f d scale Hexact. subst d scale.
  unfold derivative_axis_exact in Hexact. cbv beta zeta in Hexact.
  fold f in Hexact.
  destruct Hexact as (Ht2 & Hf & Hloop & Hscale & Hfin & Hval).
  assert (Hlen : length (real_axis p cs) = length cs)
    by (unfold real_axis; apply length_map).
  assert (Hd : to_R (fst (clenshaw f (of_long 2 * t)%dbl (length cs - 1)
                            (of_long 0) (of_long 0)))
               = 2 * chebyshev_series_derivative (real_axis p cs) (to_R t)).
  { destruct (clenshaw_to_R _ _ _ _ _ Hloop) as [Hb1 _]. rewrite Hb1.
    destruct Ht2 as [_ Ht2]. rewrite Ht2, to_R_zero.
    rewrite (clenshaw_real_ext (fun j => to_R (f j))
               (fun j => 2 * IZR (Z.of_nat j) * nth j (real_axis p cs) 0)).
    - rewrite <- Hlen. apply axis_series_derivative. rewrite Hlen. exact Hn.
    - intros j Hj. destruct (Hf j Hj) as [_ Hfj]. unfold f. rewrite Hfj.
      now rewrite (nth_real_axis p cs j Hp). }
  split.
  - split; [| exact Hd]. now apply clenshaw_finite.
  - split; [exact Hfin |]. rewrite Hval, Hd.
    destruct Hscale as [_ Hscale]. rewrite Hscale. field. exact Hr.
Qed.

(** C1, as the code has it: on binary64, for a record of n >= 2
    well-formed vectors [cs], a [t] and a nonzero [radius] on which the
    run does not round (the doubling of [t], every product [k2 * c], every
    accumulator update, [scale] and the last product are exact, results
    finite), the accumulator [d1_a] left by the loop is the double that
    stands for TWICE the derivative [D_a] with respect to [t] of the
    series [sum_(k<n) cs[k][a] * T_k] at [t] (the loop adds [2 k c_k]),
    and each component of [evaluate_derivative] is the double that stands
    for [d1_a * SECONDS_PER_DAY / (2 radius) = D_a * 86400 / radius]. *)
Theorem evaluate_derivative_is_series_derivative_when_exact
        (l : list (VALUE float)) (cs : list (float * float * float))
        (rb_t rb_radius : VALUE float) (t radius : float) :
  (2 <= length l)%nat ->
  map components l = map Ok cs ->
  NUM2DBL rb_t = Ok t ->
  NUM2DBL rb_radius = Ok radius ->
  to_R radius <> 0 ->
  derivative_is_exact cs t radius ->
  exists Dx Dy Dz d vx vy vz,
    derivable_pt_lim (chebyshev_series (real_axis axis_x cs)) (to_R t) Dx
    /\ derivable_pt_lim (chebyshev_series (real_axis axis_y cs)) (to_R t) Dy
    /\ derivable_pt_lim (chebyshev_series (real_axis axis_z cs)) (to_R t) Dz
    /\ derivative_loop l (of_long 2 * t)%dbl (Z.to_nat (RARRAY_LEN l - 1))
         zero_acc = Ok d
    /\ exactly (a1x d) (2 * Dx)
    /\ exactly (a1y d) (2 * Dy)
    /\ exactly (a1z d) (2 * Dz)
    /\ chebyshev_evaluate_derivative (Array l) rb_t rb_radius
       = Ok (Array [Float vx; Float vy; Float vz])
    /\ exactly vx (Dx * (86400 / to_R radius))
    /\ exactly vy (Dy * (86400 / to_R radius))
    /\ exactly vz (Dz * (86400 / to_R radius)).
Proof.
  intros Hn Hcs Ht Hr Hradius (Hx & Hy & Hz).
  destruct (record_vectors l cs (of_long 0, of_long 0, of_long 0) Hcs)
    as [Hlen Hread].
  set (c := fun j => nth j cs (of_long 0, of_long 0, of_long 0)).
  assert (Hloop := derivative_loop_clenshaw l c (of_long 2 * t)%dbl
                     (k := length l - 1)
                     ltac:(intros j Hj; apply Hread; lia) zero_acc).
  assert (Hncs : (1 <= length cs)%nat) by lia.
  destruct (@derivative_axis_value axis_x cs t radius to_R_zero Hncs Hradius Hx)
    as [Hdx Hvx].
  destruct (@derivative_axis_value axis_y cs t radius to_R_zero Hncs Hradius Hy)
    as [Hdy Hvy].
  destruct (@derivative_axis_value axis_z cs t radius to_R_zero Hncs Hradius Hz)
    as [Hdz Hvz].
  exists (chebyshev_series_derivative (real_axis axis_x cs) (to_R t)),
         (chebyshev_series_derivative (real_axis axis_y cs) (to_R t)),
         (chebyshev_series_derivative (real_axis axis_z cs) (to_R t)).
  eexists. do 3 eexists.
  repeat (split; [apply chebyshev_series_derivable |]).
  rewrite loop_bound. split; [exact Hloop |].
  rewrite Hlen. cbn [along_axes a1x a1y a1z a2x a2y a2z zero_acc].
  split; [exact Hdx |]. split; [exact Hdy |]. split; [exact Hdz |].
  rewrite chebyshev_evaluate_derivative_Array, Ht, Hr. cbn [bind].
  destruct (Nat.ltb_spec (length l) 2) as [Hlt | _]; [lia |].
  rewrite Hloop. cbn [bind].
  unfold scaled, rb_ary_new_from_args3, DBL2NUM.
  cbn [along_axes a1x a1y a1z a2x a2y a2z zero_acc]. rewrite Hlen.
  split; [reflexivity |].
  split; [exact Hvx |]. split; [exact Hvy | exact Hvz].
Qed.
End DerivativeValue.

Lemma evaluate_derivative_is_series_derivative_when_exact_witness :
  let cs := [(1, 0, 0); (2, 0, 0); (3, 0, 1)]%float in
  exists Dx Dy Dz d vx vy vz,
    derivable_pt_lim (chebyshev_series (real_axis axis_x cs))
      (to_R 0.5%float) Dx
    /\ derivable_pt_lim (chebyshev_series (real_axis axis_y cs))
         (to_R 0.5%float) Dy
    /\ derivable_pt_lim (chebyshev_series (real_axis axis_z cs))
         (to_R 0.5%float) Dz
    /\ derivative_loop
         [Array [Integer 1; Integer 0; Integer 0];
          Array [Integer 2; Integer 0; Integer 0];
          Array [Integer 3; Integer 0; Integer 1]]
         (of_long 2 * 0.5%float)%dbl 2 zero_acc = Ok d
    /\ exactly (a1x d) (2 * Dx)%R
    /\ exactly (a1y d) (2 * Dy)%R
    /\ exactly (a1z d) (2 * Dz)%R
    /\ chebyshev_evaluate_derivative
         (Array [Array [Integer 1; Integer 0; Integer 0];
                 Array [Integer 2; Integer 0; Integer 0];
                 Array [Integer 3; Integer 0; Integer 1]])
         (Float 0.5%float) (Integer 16)
       = Ok (Array [Float vx; Float vy; Float vz])
    /\ exactly vx (Dx * (86400 / to_R 16%float))%R
    /\ exactly vy (Dy * (86400 / to_R 16%float))%R
    /\ exactly vz (Dz * (86400 / to_R 16%float))%R.
Proof.
  cbv zeta.
  apply (@evaluate_derivative_is_series_derivative_when_exact
           [Array [Integer 1; Integer 0; Integer 0];
            Array [Integer 2; Integer 0; Integer 0];
            Array [Integer 3; Integer 0; Integer 1]]
           [(1, 0, 0); (2, 0, 0); (3, 0, 1)]%float
           (Float 0.5%float) (Integer 16) 0.5%float 16%float).
  - simpl. lia.
  - reflexivity.
  - reflexivity.
  - reflexivity.
  - to_R_values. lra.
  - exact_run.
Defined.

(** C1 fails as stated.  For the series [T_1] on the x axis, whose
    derivative is 1, and [radius = 1], the claimed x component is
    [1 * 86400 / (2 * 1) = 43200]; the code returns [86400.0].  With
    [radius = 2^1023] the product [2.0 * radius] overflows, [scale] is
    [0.0] and the code returns [0.0], which is neither the claimed
    [86400 / 2^1024] nor [86400 / 2^1023]. *)
Lemma evaluate_derivative_twice_the_claimed_value :
  derivable_pt_lim
    (chebyshev_series (real_axis axis_x [(0, 0, 0); (1, 0, 0)]%float))
    (to_R 0%float) 1%R
  /\ chebyshev_evaluate_derivative
       (Array [Array [Integer 0; Integer 0; Integer 0];
               Array [Integer 1; Integer 0; Integer 0]])
       (Float 0%float) (Float 1%float)
     = Ok (Array [Float 86400%float; Float 0%float; Float 0%float])
  /\ to_R 86400%float <> (1 * (86400 / (2 * to_R 1%float)))%R
  /\ chebyshev_evaluate_derivative
       (Array [Array [Integer 0; Integer 0; Integer 0];
               Array [Integer 1; Integer 0; Integer 0]])
       (Float 0%float) (Float 0x1p1023%float)
     = Ok (Array [Float 0%float; Float 0%float; Float 0%float])
  /\ to_R 0%float <> (1 * (86400 / (2 * to_R 0x1p1023%float)))%R
  /\ to_R 0%float <> (1 * (86400 / to_R 0x1p1023%float))%R.
Proof.
  split; [| split; [| split; [| split; [| split]]]].
  - assert (Hd : chebyshev_series_derivative
                   (real_axis axis_x [(0, 0, 0); (1, 0, 0)]%float)
                   (to_R 0%float) = 1%R).
    { unfold chebyshev_series_derivative, real_axis.
      cbn [map length sum_below nth chebyshev_U1 axis_x fst Z.of_nat
           Pos.of_succ_nat].
      to_R_values. lra. }
    rewrite <- Hd. apply chebyshev_series_derivable.
  - vm_compute. reflexivity.
  - to_R_values. intros Heq. lra.
  - vm_compute. reflexivity.
  - to_R_values. intros Heq. lra.
  - to_R_values. intros Heq. lra.
Qed.

(** ** Further properties of runs without rounding *)

Section ExactProperties.
Local Open Scope R_scope.





(** X9: on binary64, at [t = 1.0] and on a run that does not round, each
    component of [evaluate] on a record of n >= 1 well-formed vectors has
    the value of the plain sum of the coefficients of its axis. *)
Theorem evaluate_at_interval_end_when_exact
        (l : list (VALUE float)) (cs : list (float * float * float))
        (rb_t : VALUE float) :
  (1 <= length l)%nat ->
  map components l = map Ok cs ->
  NUM2DBL rb_t = Ok 1%float ->
  evaluate_is_exact cs 1%float ->
  exists x y z,
    chebyshev_evaluate (Array l) rb_t = Ok (Array [Float x; Float y; Float z])
    /\ to_R x = plain_sum (real_axis axis_x cs)
    /\ to_R y = plain_sum (real_axis axis_y cs)
    /\ to_R z = plain_sum (real_axis axis_z cs).
Proof.
  intros Hn Hcs Ht Hexact.
  destruct (evaluate_value_when_exact l rb_t Hn Hcs Ht Hexact)
    as (x & y & z & Hv & [_ Hx] & [_ Hy] & [_ Hz]).
  exists x, y, z. split; [exact Hv |].
  assert (H1 : to_R 1%float = 1) by (to_R_values; lra).
  rewrite Hx, Hy, Hz, H1.
  repeat split; apply chebyshev_series_at_1.
Qed.
End ExactProperties.




Lemma evaluate_at_interval_end_when_exact_witness :
  let cs := [(1, 2, 3); (4, 5, 6); (7, 8, 0.5)]%float in
  exists x y z,
    chebyshev_evaluate
      (Array [Array [Integer 1; Integer 2; Integer 3];
              Array [Integer 4; Integer 5; Integer 6];
              Array [Integer 7; Integer 8; Float 0.5%float]])
      (Integer 1)
    = Ok (Array [Float x; Float y; Float z])
    /\ to_R x = plain_sum (real_axis axis_x cs)
    /\ to_R y = plain_sum (real_axis axis_y cs)
    /\ to_R z = plain_sum (real_axis axis_z cs).
Proof.
  cbv zeta.
  apply (@evaluate_at_interval_end_when_exact
           [Array [Integer 1; Integer 2; Integer 3];
            Array [Integer 4; Integer 5; Integer 6];
            Array [Integer 7; Integer 8; Float 0.5%float]]
           [(1, 2, 3); (4, 5, 6); (7, 8, 0.5)]%float
           (Integer 1)).
  - simpl. lia.
  - reflexivity.
  - reflexivity.
  - exact_run.
Defined.

(** ** A trailing zero vector on binary64, bit for bit *)

Section TrailingZero.
Local Open Scope float_scope.

(** An accumulator update on accumulators that are [0.0], with the
    coefficient [0.0], leaves [0.0] when [t2] is finite. *)
Lemma zero_step (t2 : float) :
  is_finite t2 = true -> t2 * 0 - 0 + 0 = 0.
Proof.
  intros Ht.
  assert (Hsf : Prim2SF (t2 * 0 - 0 + 0) = Prim2SF 0).
  { rewrite add_spec, sub_spec, mul_spec.
    change (Prim2SF 0) with (S754_zero false).
    unfold SF64add, SF64sub, SF64mul.
    destruct (is_finite_Prim2SF _ Ht) as [[s ->] | (s & m & e & ->)];
      now destruct s. }
  rewrite <- (SF2Prim_Prim2SF (t2 * 0 - 0 + 0)), Hsf.
  apply SF2Prim_Prim2SF.
Qed.

(** A finite positive double times [0.0] is [0.0]. *)
Lemma positive_times_zero (x : float) :
  is_finite x = true -> (0 <? x) = true -> x * 0 = 0.
Proof.
  intros Hfin Hpos.
  assert (Hsf : Prim2SF (x * 0) = Prim2SF 0).
  { rewrite mul_spec. rewrite ltb_spec in Hpos.
    change (Prim2SF 0) with (S754_zero false) in *.
    unfold SF64mul. unfold SFltb in Hpos.
    destruct (is_finite_Prim2SF _ Hfin) as [[s Hx] | (s & m & e & Hx)];
      rewrite Hx in *.
    - cbn in Hpos. discriminate Hpos.
    - destruct s; [cbn in Hpos; discriminate Hpos | reflexivity]. }
  rewrite <- (SF2Prim_Prim2SF (x * 0)), Hsf.
  apply SF2Prim_Prim2SF.
Qed.

Lemma shift_zero (t2 : float) :
  is_finite t2 = true -> shift t2 (0, 0, 0) zero_acc = zero_acc.
Proof.
  intros Ht. unfold shift, zero_acc.
  cbn [a1x a1y a1z a2x a2y a2z axis_x axis_y axis_z fst snd
       dadd dsub dmul of_long binary64].
  change (SF2Prim (binary_normalize prec emax 0 0 false)) with 0.
  now rewrite (@zero_step t2 Ht).
Qed.

Lemma rb_ary_entry_app (l : list (VALUE float)) (z : VALUE float) (j : nat) :
  (j < length l)%nat ->
  rb_ary_entry (l ++ [z]) (Z.of_nat j) = rb_ary_entry l (Z.of_nat j).
Proof.
  intros Hj. rewrite !rb_ary_entry_nth. now apply app_nth1.
Qed.

Lemma rb_ary_entry_last (l : list (VALUE float)) (z : VALUE float) :
  rb_ary_entry (l ++ [z]) (Z.of_nat (length l)) = z.
Proof.
  rewrite rb_ary_entry_nth, app_nth2, Nat.sub_diag by lia. reflexivity.
Qed.

(** X10: on binary64, a trailing zero vector changes nothing in
    [evaluate], bit for bit: for every record of n >= 1 elements (of any
    shape) and every [t] whose double [2.0 * t] is finite, appending an
    element whose three components read as [0.0] leaves the outcome of
    [evaluate], value or error, unchanged. *)
Theorem evaluate_trailing_zero_vector_binary64
        (l : list (VALUE float)) (z rb_t : VALUE float) (t : float) :
  (1 <= length l)%nat ->
  components z = Ok (0, 0, 0) ->
  NUM2DBL rb_t = Ok t ->
  is_finite (of_long 2 * t)%dbl = true ->
  chebyshev_evaluate (Array (l ++ [z])) rb_t = chebyshev_evaluate (Array l) rb_t.
Proof.
  intros Hn Hz Ht Hfin.
  rewrite !chebyshev_evaluate_Array, Ht. cbn [bind].
  rewrite length_app. cbn [length].
  replace (length l + 1 - 1)%nat with (S (length l - 1)) by lia.
  rewrite evaluate_loop_S.
  replace (S (length l - 1)) with (length l) by lia.
  rewrite rb_ary_entry_last, Hz. cbn [bind].
  rewrite (@shift_zero _ Hfin).
  rewrite (@evaluate_loop_ext float binary64 (l ++ [z]) l)
    by (intros j Hj; rewrite rb_ary_entry_app by lia; reflexivity).
  change 0%Z with (Z.of_nat 0). rewrite rb_ary_entry_app by lia.
  reflexivity.
Qed.

Lemma shift_k2_zero (t2 : float) (k : nat) :
  is_finite t2 = true ->
  is_finite (of_long 2 * of_long (Z.of_nat k))%dbl = true ->
  (0 <? (of_long 2 * of_long (Z.of_nat k))%dbl) = true ->
  shift_k2 t2 k (0, 0, 0) zero_acc = zero_acc.
Proof.
  intros Ht Hk Hpos. unfold shift_k2. cbv zeta.
  cbn [axis_x axis_y axis_z fst snd].
  cbn [dmul binary64] in *.
  rewrite (@positive_times_zero _ Hk Hpos). now apply shift_zero.
Qed.

(** X12: on binary64, a trailing zero vector changes nothing in
    [evaluate_derivative], bit for bit: for every record of n >= 2
    elements (of any shape), every [radius] and every [t] whose double
    [2.0 * t] is finite, when [k2 = 2.0 * (double)n] is finite and
    positive, appending an element whose three components read as [0.0]
    leaves the outcome of [evaluate_derivative], value or error,
    unchanged. *)
Theorem evaluate_derivative_trailing_zero_vector_binary64
        (l : list (VALUE float)) (z rb_t rb_radius : VALUE float) (t : float) :
  (2 <= length l)%nat ->
  components z = Ok (0, 0, 0) ->
  NUM2DBL rb_t = Ok t ->
  is_finite (of_long 2 * t)%dbl = true ->
  is_finite (of_long 2 * of_long (Z.of_nat (length l)))%dbl = true ->
  (0 <? (of_long 2 * of_long (Z.of_nat (length l)))%dbl) = true ->
  chebyshev_evaluate_derivative (Array (l ++ [z])) rb_t rb_radius
  = chebyshev_evaluate_derivative (Array l) rb_t rb_radius.
Proof.
  intros Hn Hz Ht Hfin Hk Hpos.
  rewrite !chebyshev_evaluate_derivative_Array, Ht. cbn [bind].
  destruct (NUM2DBL rb_radius) as [radius | e]; cbn [bind]; [| reflexivity].
  rewrite length_app. cbn [length].
  destruct (Nat.ltb_spec (length l + 1) 2) as [Hlt | _]; [lia |].
  destruct (Nat.ltb_spec (length l) 2) as [Hlt | _]; [lia |].
  replace (length l + 1 - 1)%nat with (S (length l - 1)) by lia.
  rewrite derivative_loop_S.
  replace (S (length l - 1)) with (length l) by lia.
  rewrite rb_ary_entry_last, Hz. cbn [bind].
  rewrite (@shift_k2_zero _ _ Hfin Hk Hpos).
  rewrite (@derivative_loop_ext float binary64 (l ++ [z]) l)
    by (intros j Hj; rewrite rb_ary_entry_app by lia; reflexivity).
  reflexivity.
Qed.
End TrailingZero.

Lemma evaluate_trailing_zero_vector_binary64_witness :
  chebyshev_evaluate
    (Array ([Array [Integer 1; Integer 2; Integer 3];
             Array [Integer 4; Integer 5; Float 0x1.3333333333333p-2%float]]
            ++ [Array [Integer 0; Float 0%float; Integer 0]]))
    (Float 0x1.999999999999ap-4%float)
  = chebyshev_evaluate
      (Array [Array [Integer 1; Integer 2; Integer 3];
              Array [Integer 4; Integer 5; Float 0x1.3333333333333p-2%float]])
      (Float 0x1.999999999999ap-4%float).
Proof.
  apply (@evaluate_trailing_zero_vector_binary64
           [Array [Integer 1; Integer 2; Integer 3];
            Array [Integer 4; Integer 5; Float 0x1.3333333333333p-2%float]]
           (Array [Integer 0; Float 0%float; Integer 0])
           (Float 0x1.999999999999ap-4%float) 0x1.999999999999ap-4%float).
  - simpl. lia.
  - reflexivity.
  - reflexivity.
  - reflexivity.
Defined.

(** The condition on [2.0 * t] is needed: at [t = 2^1023] the doubling
    overflows, and the appended zero vector turns the result into NaN. *)
Lemma trailing_zero_vector_at_overflow :
  chebyshev_evaluate
    (Array [Array [Integer 1; Integer 0; Integer 0]]) (Float 0x1p1023%float)
  = Ok (Array [Float 1%float; Float 0%float; Float 0%float])
  /\ chebyshev_evaluate
       (Array [Array [Integer 1; Integer 0; Integer 0];
               Array [Integer 0; Integer 0; Integer 0]])
       (Float 0x1p1023%float)
     = Ok (Array [Float nan; Float nan; Float nan]).
Proof.
  split; vm_compute; reflexivity.
Qed.

Lemma evaluate_derivative_trailing_zero_vector_binary64_witness :
  chebyshev_evaluate_derivative
    (Array ([Array [Integer 1; Integer 2; Integer 3];
             Array [Integer 4; Integer 5; Float 0x1.3333333333333p-2%float]]
            ++ [Array [Integer 0; Float 0%float; Integer 0]]))
    (Float 0x1.999999999999ap-4%float) (Float 0x1.6666666666666p-1%float)
  = chebyshev_evaluate_derivative
      (Array [Array [Integer 1; Integer 2; Integer 3];
              Array [Integer 4; Integer 5; Float 0x1.3333333333333p-2%float]])
      (Float 0x1.999999999999ap-4%float) (Float 0x1.6666666666666p-1%float).
Proof.
  apply (@evaluate_derivative_trailing_zero_vector_binary64
           [Array [Integer 1; Integer 2; Integer 3];
            Array [Integer 4; Integer 5; Float 0x1.3333333333333p-2%float]]
           (Array [Integer 0; Float 0%float; Integer 0])
           (Float 0x1.999999999999ap-4%float) (Float 0x1.6666666666666p-1%float) 0x1.999999999999ap-4%float).
  - simpl. lia.
  - reflexivity.
  - reflexivity.
  - reflexivity.
  - reflexivity.
  - reflexivity.
Defined.
